(** * StorySoFar Reader: progressive-context chat contract

    A shallow embedding of the reader's core:
    - [services/geminiService.ts]: the context window, the prompt and the
      streaming loop of [generateAssistantResponse];
    - [services/documentUtils.ts]: [parsePdf] with its outline walk, and
      [parseEpub];
    - [App.tsx] and [components/ChatInterface.tsx]: the chat session
      ([handleSendMessage], [handleSubmit]) as an event-driven state machine.

    - [components/Reader.tsx] and [components/FileUpload.tsx]: moving
      between pages and the upload.

    JS arrays are lists, JS strings are [string] (code units below U+0100),
    integral JS numbers are [Z] (array positions and nesting levels are
    [nat]), the numbers of scrolling are binary64 floats.  What the browser,
    pdf.js, JSZip and the text generator compute is taken as input. *)

From Stdlib Require Import Ascii String QArith PrimFloat.
From stdpp Require Import base numbers list strings pretty sorting gmap.

Local Open Scope Z_scope.

(** ** The JavaScript runtime operations the sources use *)

Module Js.

Definition nl : string := String "010"%char EmptyString.
Definition dq : string := String "034"%char EmptyString.

(** [Array.prototype.join]: no separator for zero or one element. *)
Fixpoint join (sep : string) (l : list string) : string :=
  match l with
  | [] => EmptyString
  | x :: rest =>
      match rest with
      | [] => x
      | _ :: _ => x +:+ sep +:+ join sep rest
      end
  end.

(** A relative index of [slice]: a negative one counts from the end, and
    both ends saturate. *)
Definition clampIndex (len rel : Z) : Z :=
  if bool_decide (rel < 0) then Z.max (len + rel) 0 else Z.min rel len.

(** [Array.prototype.slice(start, end)]; [end_ = None] is an omitted
    second argument. *)
Definition slice {A} (l : list A) (start : Z) (end_ : option Z) : list A :=
  let len := Z.of_nat (length l) in
  let k := clampIndex len start in
  let final := clampIndex len (default len end_) in
  take (Z.to_nat (final - k)) (drop (Z.to_nat k) l).

(** Truthiness of a string that may be [undefined]. *)
Definition truthy (s : option string) : bool :=
  match s with
  | Some (String _ _) => true
  | _ => false
  end.

(** A [string] is a sequence of code units below U+0100, one [ascii]
    each.  Among these, the white space of [trim], of [parseInt] and of
    the class [\s] is tab, line feed, vertical tab, form feed, carriage
    return, space and the no-break space U+00A0. *)
Definition isWhiteSpace (c : ascii) : bool :=
  Ascii.is_space c || Ascii.eqb c "160"%char.

(** [String.prototype.trim] and [replace(/\s+/g, ' ')]. *)
Fixpoint trimStart (s : string) : string :=
  match s with
  | String c s' => if isWhiteSpace c then trimStart s' else s
  | EmptyString => EmptyString
  end.

Definition trim (s : string) : string :=
  String.rev (trimStart (String.rev (trimStart s))).

Fixpoint collapseSpaces (inRun : bool) (s : string) : string :=
  match s with
  | EmptyString => EmptyString
  | String c s' =>
      if isWhiteSpace c
      then (if inRun then collapseSpaces true s'
            else String " "%char (collapseSpaces true s'))
      else String c (collapseSpaces false s')
  end.

Definition normalizeText (s : string) : string :=
  trim (collapseSpaces false s).

(** [String.prototype.endsWith]. *)
Definition endsWith (s suffix : string) : bool :=
  let n := String.length s in
  let m := String.length suffix in
  bool_decide (m <= n)%nat &&
  bool_decide (substring (n - m) m s = suffix).

End Js.

(** ** [types.ts] *)

Inductive Role := user | assistant | system.

Global Instance Role_eq_dec : EqDecision Role.
Proof. solve_decision. Defined.

Record TocItem := mkTocItem {
  toc_title : string;
  toc_page : Z;
  toc_level : nat
}.

Inductive RenderData :=
| PdfBuffer (bytes : string)
| HtmlPages (html : list string).

Inductive FileType := pdf | epub.

Record Book := mkBook {
  book_title : string;
  book_fileType : FileType;
  book_content : list string;
  book_renderData : RenderData;
  book_totalPages : Z;
  book_fileName : string;
  book_toc : list TocItem
}.

(** [isStreaming] is an optional field: [None] when it is absent. *)
Record Message := mkMessage {
  msg_id : string;
  msg_role : Role;
  msg_content : string;
  msg_timestamp : Z;
  msg_isStreaming : option bool
}.

(** ** [services/geminiService.ts] *)

Module GeminiService.
Import Js.

Inductive Outcome :=
| Resolved (text : string)
| Rejected (err : string).

(** [getClient]: throws when the key is missing (or empty). *)
Definition getClient (apiKey : option string) : option string :=
  if truthy apiKey then apiKey else None.

(** The context read so far. *)
Definition pagesRead (bookContext : list string) (currentPage : Z) : list string :=
  slice bookContext 0 (Some (currentPage + 1)).

Definition pageBlock (idx : nat) (text : string) : string :=
  "[Page " +:+ pretty (idx + 1)%nat +:+ "]: " +:+ text.

Definition contextText (bookContext : list string) (currentPage : Z) : string :=
  join (nl +:+ nl) (imap pageBlock (pagesRead bookContext currentPage)).

Definition systemInstruction (bookContext : list string) (currentPage : Z) : string :=
  nl +:+
  "    You are a strict " +:+ dq +:+ "No-Spoiler" +:+ dq +:+ " Reading Assistant. " +:+ nl +:+
  "    The user is reading a book and has strictly read ONLY pages 1 to "
    +:+ pretty (currentPage + 1) +:+ "." +:+ nl +:+
  "    " +:+ nl +:+
  "    Here is the content they have read so far:" +:+ nl +:+
  "    " +:+ dq +:+ dq +:+ dq +:+ nl +:+
  "    " +:+ contextText bookContext currentPage +:+ nl +:+
  "    " +:+ dq +:+ dq +:+ dq +:+ nl +:+
  nl +:+
  "    YOUR RULES:" +:+ nl +:+
  "    1. Answer ONLY using the information provided in the context above." +:+ nl +:+
  "    2. Do NOT use outside knowledge about the book's plot, ending, or future characters." +:+ nl +:+
  "    3. If the user asks about an event, character, or detail NOT present in the pages read so far, respond: "
    +:+ dq +:+ "I don't have information about that yet based on the pages you've read." +:+ dq +:+ nl +:+
  "    4. If asked to summarize, summarize ONLY the pages provided." +:+ nl +:+
  "    5. If asked for a prediction, politely decline and redirect to current events." +:+ nl +:+
  "    6. Be helpful with definitions, clarifications, and summaries of past events." +:+ nl +:+
  "    " +:+ nl +:+
  "    Maintain a helpful, literary tone." +:+ nl +:+
  "  ".

(** The chat history sent along: system messages are filtered out, the
    last six of the rest are kept. *)
Definition roleLabel (r : Role) : string :=
  if decide (r = user) then "User" else "Assistant".

Definition renderTurn (m : Message) : string :=
  roleLabel (msg_role m) +:+ ": " +:+ msg_content m.

Definition historyWindow (currentHistory : list Message) : list Message :=
  slice (filter (λ m, msg_role m ≠ system) currentHistory) (-6) None.

Definition recentMessages (currentHistory : list Message) : string :=
  join nl (renderTurn <$> historyWindow currentHistory).

Definition finalPrompt (currentHistory : list Message) (lastUserMessage : string) : string :=
  nl +:+
  "    " +:+ recentMessages currentHistory +:+ nl +:+
  "    User: " +:+ lastUserMessage +:+ nl +:+
  "    Assistant:" +:+ nl +:+
  "  ".

(** What is handed to [generateContentStream]. *)
Record GenerateRequest := mkRequest {
  model : string;
  contents : string;
  config_systemInstruction : string;
  config_temperature : Q
}.

(** [contents] reads the last entry of the history; on an empty history
    the property access throws. *)
Definition buildRequest (currentHistory : list Message)
    (bookContext : list string) (currentPage : Z) : option GenerateRequest :=
  m ← last currentHistory;
  Some {| model := "gemini-3-flash-preview";
          contents := finalPrompt currentHistory (msg_content m);
          config_systemInstruction := systemInstruction bookContext currentPage;
          config_temperature := (3 # 10)%Q |}.

(** The response stream: chunks whose [text] may be undefined, then
    normal completion or an exception. *)
Inductive StreamEnd := Completed | Errored.

Record ResponseStream := mkStream {
  chunks : list (option string);
  ending : StreamEnd
}.

Definition fallbackText : string :=
  "I'm having trouble connecting to my knowledge base right now. Please try again.".

Section Streaming.
Context {S : Type} (onChunk : string → S → S).

(** One turn of the [for await] loop: a chunk without text is skipped,
    otherwise the text is added to [fullText] and the whole of
    [fullText] is handed to the callback. *)
Definition onStreamChunk (chunk : option string) (acc : string * S) : string * S :=
  if truthy chunk then
    let fullText := acc.1 +:+ default EmptyString chunk in
    (fullText, onChunk fullText acc.2)
  else acc.

Definition streamLoop (cs : list (option string)) (acc : string * S) : string * S :=
  foldl (λ a c, onStreamChunk c a) acc cs.

Definition generateAssistantResponse
    (apiKey : option string) (provider : GenerateRequest → ResponseStream)
    (currentHistory : list Message) (bookContext : list string)
    (currentPage : Z) (st : S) : Outcome * S :=
  match getClient apiKey with
  | None => (Rejected "API Key is missing", st)
  | Some _ =>
      match buildRequest currentHistory bookContext currentPage with
      | None => (Rejected "TypeError", st)
      | Some req =>
          let stream := provider req in
          let '(fullText, st') := streamLoop (chunks stream) (EmptyString, st) in
          match ending stream with
          | Completed => (Resolved fullText, st')
          | Errored => (Resolved fallbackText, st')
          end
      end
  end.
End Streaming.

End GeminiService.

(** ** [services/documentUtils.ts] *)

Module DocumentUtils.
Import Js.

Inductive Result (A : Type) :=
| Ok (a : A)
| Err (message : string).
Arguments Ok {A} a.
Arguments Err {A} message.

(** The uploaded [File]. *)
Record File := mkFile {
  file_name : string;
  file_type : string;
  file_data : string
}.

(** *** What pdf.js hands out *)

(** The first element of an explicit destination: a page reference in a
    good file, but any PDF value in general. *)
Inductive DestElem :=
| RefObj (num gen : Z)
| NumVal (n : Z)
| NameObj (name : string)
| NullVal.

Definition elemTruthy (e : DestElem) : bool :=
  match e with
  | RefObj _ _ | NameObj _ => true
  | NumVal n => bool_decide (n ≠ 0)
  | NullVal => false
  end.

(** [item.dest]: absent, a named destination, or an explicit one. *)
Inductive Dest :=
| DestNull
| DestString (name : string)
| DestArray (elems : list DestElem).

#[warnings="-register-all"] Inductive OutlineItem :=
| mkOutlineItem (title : string) (dest : Dest) (url : option string)
    (items : list OutlineItem).

Definition item_title (it : OutlineItem) : string :=
  match it with mkOutlineItem t _ _ _ => t end.
Definition item_dest (it : OutlineItem) : Dest :=
  match it with mkOutlineItem _ d _ _ => d end.
Definition item_url (it : OutlineItem) : option string :=
  match it with mkOutlineItem _ _ u _ => u end.
Definition item_items (it : OutlineItem) : list OutlineItem :=
  match it with mkOutlineItem _ _ _ l => l end.

(** The loaded document.  [getPageText i] is the [str] of the text items
    of page [i] (1-based), [None] when fetching the page fails;
    [getDestination] answers [null] ([None]) for an unknown name;
    [getPageIndex] rejects ([None]) when the reference is not a page. *)
Record PdfDocument := mkPdf {
  numPages : nat;
  getPageText : nat → option (list string);
  getOutline : option (list OutlineItem);
  getDestination : string → option (list DestElem);
  getPageIndex : DestElem → option Z
}.

(** *** What JSZip and the DOM parser hand out *)

(** An archive member as the DOM shows it after parsing: the number of
    [img] elements, the body ([None] when the document has none, as after
    a parse error) with its text and with its markup once the image loop
    has rewritten the [src] attributes, and the text of [title]. *)
Record XhtmlBody := mkBody {
  textContent : option string;
  innerHTML : string
}.

Record XhtmlMember := mkMember {
  images_length : nat;
  body : option XhtmlBody;
  title_textContent : option string
}.

(** [window]: each library may be missing, and loading may fail.  A
    loaded archive is its [files] object, from member name to member. *)
Record Window := mkWindow {
  pdfjsLib : option (string → Result PdfDocument);
  JSZip : option (string → Result (gmap string XhtmlMember))
}.

(** [s.replace(pat, rep)] with a string pattern: the first occurrence. *)
Fixpoint replaceFirst (pat rep s : string) : string :=
  if String.prefix pat s
  then rep +:+ substring (String.length pat) (String.length s - String.length pat) s
  else match s with
       | EmptyString => EmptyString
       | String c s' => String c (replaceFirst pat rep s')
       end.

(** *** [parsePdf] *)

Definition extractPageText (items : list string) : string :=
  normalizeText (join " " items).

Section Outline.
Context (pdfDoc : PdfDocument).

(** A named destination is looked up first. *)
Definition destOf (item : OutlineItem) : Dest :=
  match item_dest item with
  | DestString name =>
      match getDestination pdfDoc name with
      | Some elems => DestArray elems
      | None => DestNull
      end
  | d => d
  end.

(** [Array.isArray(dest) && dest[0]] *)
Definition destRef (d : Dest) : option DestElem :=
  match d with
  | DestArray (ref :: _) => if elemTruthy ref then Some ref else None
  | _ => None
  end.

(** The first half of the loop body: [Some pageIndex] with [-1] for a
    page that was not found, or [None] for the [continue] taken on an
    external link. *)
Definition lookupPage (item : OutlineItem) : option Z :=
  match destRef (destOf item) with
  | Some ref => Some (default (-1) (getPageIndex pdfDoc ref))
  | None => if truthy (item_url item) then None else Some (-1)
  end.

Definition pushEntry (item : OutlineItem) (pageIndex : Z) (level : nat)
    (toc : list TocItem) : list TocItem :=
  if bool_decide (pageIndex ≠ -1)
  then toc ++ [mkTocItem (item_title item) pageIndex level]
  else toc.

(** One iteration of the loop over [items], threading the [toc] array
    that the source pushes to. *)
Fixpoint processItem (level : nat) (item : OutlineItem) (toc : list TocItem)
    {struct item} : list TocItem :=
  match lookupPage item with
  | None => toc
  | Some pageIndex =>
      let toc1 := pushEntry item pageIndex level toc in
      match item with
      | mkOutlineItem _ _ _ children =>
          (fix walk (l : list OutlineItem) (acc : list TocItem) : list TocItem :=
             match l with
             | [] => acc
             | child :: rest => walk rest (processItem (S level) child acc)
             end) children toc1
      end
  end.

Definition processOutline (items : list OutlineItem) (level : nat)
    (toc : list TocItem) : list TocItem :=
  foldl (λ acc item, processItem level item acc) toc items.

Definition extractToc : list TocItem :=
  match getOutline pdfDoc with
  | Some outline => processOutline outline 0 []
  | None => []
  end.
End Outline.

Definition parsePdf (window : Window) (file : File) : Result Book :=
  match pdfjsLib window with
  | None => Err "PDF.js library not loaded"
  | Some getDocument =>
      match getDocument (file_data file) with
      | Err e => Err e
      | Ok pdfDoc =>
          match mapM (getPageText pdfDoc) (seq 1 (numPages pdfDoc)) with
          | None => Err "getPage"
          | Some texts =>
              let pages := extractPageText <$> texts in
              Ok {| book_title := replaceFirst ".pdf" EmptyString (file_name file);
                    book_fileType := pdf;
                    book_content := pages;
                    book_renderData := PdfBuffer (file_data file);
                    book_totalPages := Z.of_nat (length pages);
                    book_fileName := file_name file;
                    book_toc := extractToc pdfDoc |}
          end
      end
  end.

(** *** [parseEpub] *)

Definition isHtmlName (fileName : string) : bool :=
  endsWith fileName ".html" || endsWith fileName ".xhtml" || endsWith fileName ".htm".

(** [fileName.split('/').pop()] *)
Fixpoint lastSegment (cur : string) (s : string) : string :=
  match s with
  | EmptyString => String.rev cur
  | String c s' =>
      if Ascii.eqb c "/" then lastSegment EmptyString s'
      else lastSegment (String c cur) s'
  end.

(** The reversed extension in front of the last dot of a reversed name,
    with what is left after that dot. *)
Fixpoint splitAtDot (ext : string) (r : string) : option (string * string) :=
  match r with
  | EmptyString => None
  | String c r' =>
      if Ascii.eqb c "." then Some (ext, r')
      else splitAtDot (ext +:+ String c EmptyString) r'
  end.

(** [replace] with the pattern [/\.[^/.]+$/] and the empty string, on a
    name without a slash: the last extension goes. *)
Definition stripExtension (name : string) : string :=
  match splitAtDot EmptyString (String.rev name) with
  | Some (String _ _, stem) => String.rev stem
  | _ => name
  end.

Definition chapterTitle (fileName : string) (member : XhtmlMember) (pageIndex : nat) : string :=
  let title := trim <$> title_textContent member in
  if truthy title then default EmptyString title
  else
    let stem := stripExtension (lastSegment EmptyString fileName) in
    if truthy (Some stem) then stem
    else "Chapter " +:+ pretty (pageIndex + 1)%nat.

Record EpubAcc := mkEpubAcc {
  textPages : list string;
  htmlPages : list string;
  epub_toc : list TocItem
}.

(** One iteration of the loop over the sorted member names; reading the
    text of a missing body throws. *)
Definition addMember (fileName : string) (member : XhtmlMember) (acc : EpubAcc)
    : option EpubAcc :=
  b ← body member;
  let text := default EmptyString (textContent b) in
  if bool_decide (0 < String.length (trim text))%nat
     || bool_decide (0 < images_length member)%nat
  then
    let pageIndex := length (textPages acc) in
    Some {| textPages := textPages acc ++ [normalizeText text];
            htmlPages := htmlPages acc ++ [innerHTML b];
            epub_toc := epub_toc acc ++
              [mkTocItem (chapterTitle fileName member pageIndex) (Z.of_nat pageIndex) 0] |}
  else Some acc.

(** [Object.keys(content.files)], filtered by extension and sorted. *)
Definition htmlNames (files : gmap string XhtmlMember) : list string :=
  merge_sort (≤)%string (filter (λ n, isHtmlName n = true) (map_to_list files).*1).

Definition epubLoop (files : gmap string XhtmlMember) (names : list string)
    : option EpubAcc :=
  foldl (λ acc fileName,
           a ← acc;
           match files !! fileName with
           | Some member => addMember fileName member a
           | None => Some a
           end)
        (Some (mkEpubAcc [] [] [])) names.

Definition parseEpub (window : Window) (file : File) : Result Book :=
  match JSZip window with
  | None => Err "JSZip library not loaded"
  | Some loadAsync =>
      match loadAsync (file_data file) with
      | Err e => Err e
      | Ok files =>
          match epubLoop files (htmlNames files) with
          | None => Err "TypeError"
          | Some acc =>
              Ok {| book_title := replaceFirst ".epub" EmptyString (file_name file);
                    book_fileType := epub;
                    book_content :=
                      if bool_decide (0 < length (textPages acc))%nat
                      then textPages acc else ["No text content found."];
                    book_renderData :=
                      HtmlPages (if bool_decide (0 < length (htmlPages acc))%nat
                                 then htmlPages acc else ["<p>No content found.</p>"]);
                    book_totalPages :=
                      if bool_decide (0 < length (htmlPages acc))%nat
                      then Z.of_nat (length (htmlPages acc)) else 1;
                    book_fileName := file_name file;
                    book_toc := epub_toc acc |}
          end
      end
  end.

Definition parseFile (window : Window) (file : File) : Result Book :=
  if bool_decide (file_type file = "application/pdf") then parsePdf window file
  else if bool_decide (file_type file = "application/epub+zip")
          || endsWith (file_name file) ".epub"
  then parseEpub window file
  else Err "Unsupported file type. Please upload PDF or EPUB.".

End DocumentUtils.

(** ** [App.tsx] and [components/ChatInterface.tsx] *)

Module App.
Import Js GeminiService.

(** A call of [generateAssistantResponse] that is still awaited: the
    [assistantMsgId] its callback closes over and the [fullText] of its
    loop. *)
Record Pending := mkPending {
  assistantMsgId : string;
  fullText : string
}.

(** The component state ([book], [currentPage], [messages], [isChatOpen],
    [isAiLoading]) together with what lives outside React: the progress
    entries of [localStorage] (the stored decimal text as the number it
    denotes), the awaited calls and the requests handed to the generator so
    far. *)
Record State := mkState {
  book : option Book;
  currentPage : Z;
  messages : list Message;
  isChatOpen : bool;
  isAiLoading : bool;
  localStorage : gmap string Z;
  pending : list Pending;
  sent : list GenerateRequest
}.

Definition initialState (storage : gmap string Z) : State :=
  mkState None 0 [] false false storage [] [].

Definition progressKey (b : Book) : string := "progress_" +:+ book_fileName b.

Definition welcomeMessage (loadedBook : Book) (now : Z) : Message :=
  {| msg_id := "welcome";
     msg_role := assistant;
     msg_content :=
       "Hello! I'm ready to read **" +:+ book_title loadedBook +:+ "** with you. "
       +:+ nl +:+ nl +:+
       "I'll track your progress page by page. Feel free to ask me questions, but remember: I only know what *you* have read so far!";
     msg_timestamp := now;
     msg_isStreaming := None |}.

(** The effect that persists the page whenever [currentPage] or [book]
    changed. *)
Definition persistProgress (st : State) : State :=
  match book st with
  | Some b =>
      mkState (book st) (currentPage st) (messages st) (isChatOpen st)
        (isAiLoading st) (<[progressKey b := currentPage st]> (localStorage st))
        (pending st) (sent st)
  | None => st
  end.

Definition handleBookLoaded (loadedBook : Book) (now : Z) (st : State) : State :=
  persistProgress
    (mkState (Some loadedBook)
       (default 0 (localStorage st !! progressKey loadedBook))
       [welcomeMessage loadedBook now] false (isAiLoading st)
       (localStorage st) (pending st) (sent st)).

Definition handleBackToHome (st : State) : State :=
  mkState None (currentPage st) [] false (isAiLoading st)
    (localStorage st) (pending st) (sent st).

Definition setCurrentPage (page : Z) (st : State) : State :=
  persistProgress
    (mkState (book st) page (messages st) (isChatOpen st) (isAiLoading st)
       (localStorage st) (pending st) (sent st)).

(** The callback given to [generateAssistantResponse]: the turn with the
    placeholder's id gets the text it is called with. *)
Definition onChunk (assistantMsgId : string) (textChunk : string)
    (msgs : list Message) : list Message :=
  (λ m, if decide (msg_id m = assistantMsgId)
        then mkMessage (msg_id m) (msg_role m) textChunk (msg_timestamp m)
               (msg_isStreaming m)
        else m) <$> msgs.

(** After the awaited call returned: the streaming flag is cleared. *)
Definition finishStreaming (assistantMsgId : string) (msgs : list Message) : list Message :=
  (λ m, if decide (msg_id m = assistantMsgId)
        then mkMessage (msg_id m) (msg_role m) (msg_content m) (msg_timestamp m)
               (Some false)
        else m) <$> msgs.

Definition errorText : string := "Sorry, I encountered an error answering that.".

Section Session.
Context (apiKey : option string).

(** [handleSendMessage] up to its [await]; [now k] is what the [k]-th call
    of [Date.now()] returns.  The service runs up to its own first [await]
    in the same turn: it throws on a missing key, otherwise the request
    goes out. *)
Definition handleSendMessage (content : string) (now : nat → Z) (st : State) : State :=
  match book st with
  | None => st
  | Some b =>
      let userMsg := mkMessage (pretty (now 0%nat)) user content (now 1%nat) None in
      let aid := pretty (now 2%nat + 1) in
      let placeholder := mkMessage aid assistant EmptyString (now 3%nat) (Some true) in
      let msgs := (messages st ++ [userMsg]) ++ [placeholder] in
      let request :=
        _ ← getClient apiKey;
        buildRequest (messages st ++ [userMsg]) (book_content b) (currentPage st) in
      match request with
      | Some req =>
          mkState (book st) (currentPage st) msgs (isChatOpen st) true
            (localStorage st)
            (pending st ++ [mkPending aid EmptyString]) (sent st ++ [req])
      | None =>
          mkState (book st) (currentPage st)
            (msgs ++ [mkMessage (pretty (now 4%nat)) assistant errorText (now 5%nat) None])
            (isChatOpen st) false (localStorage st) (pending st) (sent st)
      end
  end.

(** [ChatInterface.handleSubmit] *)
Definition handleSubmit (inputValue : string) (now : nat → Z) (st : State) : State :=
  if truthy (Some (trim inputValue)) && negb (isAiLoading st)
  then handleSendMessage inputValue now st
  else st.

(** The suggestion buttons exist only while the chat is on screen with an
    empty message list. *)
Definition suggestions : list string :=
  ["Summarize what I've read so far"; "Who is the main character?";
   "Explain the last paragraph"].

Definition clickSuggestion (i : nat) (now : nat → Z) (st : State) : State :=
  match book st, messages st, suggestions !! i with
  | Some _, [], Some s => handleSendMessage s now st
  | _, _, _ => st
  end.

(** The next chunk of the [k]-th awaited stream arrives. *)
Definition receiveChunk (k : nat) (chunk : option string) (st : State) : State :=
  match pending st !! k with
  | None => st
  | Some p =>
      let '(text, msgs) :=
        onStreamChunk (onChunk (assistantMsgId p)) chunk (fullText p, messages st) in
      mkState (book st) (currentPage st) msgs (isChatOpen st) (isAiLoading st)
        (localStorage st) (<[k := mkPending (assistantMsgId p) text]> (pending st))
        (sent st)
  end.

(** The [k]-th awaited call returns, with [fullText] after a complete
    stream and with the service's fallback text after an error; the value
    is not used. *)
Definition returnedText (p : Pending) (e : StreamEnd) : string :=
  match e with
  | Completed => fullText p
  | Errored => fallbackText
  end.

Definition finishCall (k : nat) (e : StreamEnd) (st : State) : State :=
  match pending st !! k with
  | None => st
  | Some p =>
      let _ := returnedText p e in
      mkState (book st) (currentPage st)
        (finishStreaming (assistantMsgId p) (messages st))
        (isChatOpen st) false (localStorage st)
        (delete k (pending st)) (sent st)
  end.

Inductive Event :=
| BookLoaded (loadedBook : Book) (now : Z)
| BackToHome
| PageChange (page : Z)
| Submit (inputValue : string) (now : nat → Z)
| Suggestion (i : nat) (now : nat → Z)
| OpenChat (open : bool)
| Chunk (k : nat) (chunk : option string)
| CallEnds (k : nat) (e : StreamEnd).

Definition step (st : State) (ev : Event) : State :=
  match ev with
  | BookLoaded b now => handleBookLoaded b now st
  | BackToHome => handleBackToHome st
  | PageChange page => setCurrentPage page st
  | Submit inputValue now => handleSubmit inputValue now st
  | Suggestion i now => clickSuggestion i now st
  | OpenChat open =>
      mkState (book st) (currentPage st) (messages st) open (isAiLoading st)
        (localStorage st) (pending st) (sent st)
  | Chunk k chunk => receiveChunk k chunk st
  | CallEnds k e => finishCall k e st
  end.

Definition run (st : State) (evs : list Event) : State := foldl step st evs.

Inductive reachable : State → Prop :=
| reachable_init storage : reachable (initialState storage)
| reachable_step st ev : reachable st → reachable (step st ev).

End Session.

End App.

(** ** Numbers as text: [parseInt(s, 10)] and [toString] *)

Module JsNumber.

Definition digit (c : ascii) : option N := N.of_nat <$> Ascii.is_nat c.

(** The value of the leading decimal digits, [None] when there is none. *)
Fixpoint parseDigits (acc : option N) (s : string) : option N :=
  match s with
  | EmptyString => acc
  | String c s' =>
      match digit c with
      | Some d => parseDigits (Some (default 0%N acc * 10 + d)%N) s'
      | None => acc
      end
  end.

(** [parseInt(s, 10)] on integers of any size: leading white space, a sign,
    then digits up to the first other character; [None] is [NaN]. *)
Definition parseInt (s : string) : option Z :=
  match Js.trimStart s with
  | String "-" rest => (λ n, - Z.of_N n) <$> parseDigits None rest
  | String "+" rest => Z.of_N <$> parseDigits None rest
  | rest => Z.of_N <$> parseDigits None rest
  end.

(** [Number.prototype.toString] of an integer. *)
Definition toString (z : Z) : string := pretty z.

End JsNumber.

(** ** [resolvePath], the helper of [parseEpub] for image references *)

Module EpubPaths.

(** [s.split(sep)] for a one-character separator: never empty. *)
Fixpoint split (sep : ascii) (s : string) : list string :=
  match s with
  | EmptyString => [EmptyString]
  | String c s' =>
      if Ascii.eqb c sep then EmptyString :: split sep s'
      else match split sep s' with
           | seg :: rest => String c seg :: rest
           | [] => [String c EmptyString]
           end
  end.

(** One turn of the loop over the parts of the relative path; [pop] on
    an empty stack does nothing. *)
Definition resolveStep (stack : list string) (part : string) : list string :=
  if decide (part = ".") then stack
  else if decide (part = "..") then removelast stack
  else stack ++ [part].

Definition resolveStack (base relative : string) : list string :=
  foldl resolveStep (removelast (split "/" base)) (split "/" relative).

Definition resolvePath (base relative : string) : string :=
  Js.join "/" (resolveStack base relative).

End EpubPaths.

(** ** [components/Reader.tsx]: moving between pages *)

Module Reader.

(** The part of the component that decides the page: the [currentPage]
    prop with its [onPageChange], [book.totalPages], the text of the page
    field, the table-of-contents drawer and the two refs of the scroll
    navigation. *)
Record State := mkState {
  currentPage : Z;
  totalPages : Z;
  pageInput : string;
  showToc : bool;
  lastNavigationTime : Z;
  touchStartY : option float
}.

(** [navigateToPage]: [onPageChange], then the effect that puts the new
    page number into the page field when the page changed. *)
Definition navigateToPage (newPage : Z) (st : State) : State :=
  mkState newPage (totalPages st)
    (if decide (newPage = currentPage st) then pageInput st
     else JsNumber.toString (newPage + 1))
    (showToc st) (lastNavigationTime st) (touchStartY st).

Definition handlePrev (st : State) : State :=
  if bool_decide (0 < currentPage st) then navigateToPage (currentPage st - 1) st
  else st.

Definition handleNext (st : State) : State :=
  if bool_decide (currentPage st < totalPages st - 1)
  then navigateToPage (currentPage st + 1) st
  else st.

Definition handlePageInputChange (value : string) (st : State) : State :=
  mkState (currentPage st) (totalPages st) value (showToc st)
    (lastNavigationTime st) (touchStartY st).

Definition handlePageSubmit (st : State) : State :=
  match JsNumber.parseInt (pageInput st) with
  | Some pageNum =>
      if bool_decide (1 ≤ pageNum) && bool_decide (pageNum ≤ totalPages st)
      then navigateToPage (pageNum - 1) st
      else handlePageInputChange (JsNumber.toString (currentPage st + 1)) st
  | None => handlePageInputChange (JsNumber.toString (currentPage st + 1)) st
  end.

Definition handleTocClick (page : Z) (st : State) : State :=
  let st' := navigateToPage page st in
  mkState (currentPage st') (totalPages st') (pageInput st') false
    (lastNavigationTime st') (touchStartY st').

(** [handleKeyDown]: nothing while an input has the focus; the keys for
    zoom and full screen leave the fields above alone. *)
Definition handleKeyDown (inputFocused : bool) (key : string) (st : State) : State :=
  if inputFocused then st
  else if bool_decide (key = "ArrowRight") || bool_decide (key = " ") then handleNext st
  else if bool_decide (key = "ArrowLeft") then handlePrev st
  else st.

(** The scroll position of the content element.  Its numbers, the wheel's
    [deltaY] and the touch coordinates are JavaScript numbers: binary64
    floats, with their rounding, signed zero and NaN. *)
Record Scroll := mkScroll {
  scrollTop : float;
  scrollHeight : float;
  clientHeight : float
}.

Definition isAtBottom (el : Scroll) : bool :=
  PrimFloat.ltb
    (PrimFloat.abs (scrollHeight el - clientHeight el - scrollTop el)%float) 5%float.

Definition isAtTop (el : Scroll) : bool := PrimFloat.eqb (scrollTop el) 0%float.

Definition stamp (now : Z) (touch : option float) (st : State) : State :=
  mkState (currentPage st) (totalPages st) (pageInput st) (showToc st) now touch.

(** [handleWheel]; [el = None] when the content element is not there. *)
Definition handleWheel (el : option Scroll) (deltaY : float) (now : Z) (st : State) : State :=
  match el with
  | None => st
  | Some el =>
      if bool_decide (now - lastNavigationTime st ≤ 1200) then st
      else if isAtBottom el && PrimFloat.ltb 50%float deltaY
              && bool_decide (currentPage st < totalPages st - 1)
      then navigateToPage (currentPage st + 1) (stamp now (touchStartY st) st)
      else if isAtTop el && PrimFloat.ltb deltaY (-50)%float
              && bool_decide (0 < currentPage st)
      then navigateToPage (currentPage st - 1) (stamp now (touchStartY st) st)
      else st
  end.

Definition handleTouchStart (clientY : float) (st : State) : State :=
  stamp (lastNavigationTime st) (Some clientY) st.

Definition handleTouchEnd (st : State) : State :=
  stamp (lastNavigationTime st) None st.

Definition handleTouchMove (el : option Scroll) (currentY : float) (now : Z) (st : State) : State :=
  match el, touchStartY st with
  | Some el, Some startY =>
      let deltaY := (startY - currentY)%float in
      if bool_decide (now - lastNavigationTime st ≤ 1200) then st
      else if isAtBottom el && PrimFloat.ltb 100%float deltaY
              && bool_decide (currentPage st < totalPages st - 1)
      then navigateToPage (currentPage st + 1) (stamp now None st)
      else if isAtTop el && PrimFloat.ltb deltaY (-100)%float
              && bool_decide (0 < currentPage st)
      then navigateToPage (currentPage st - 1) (stamp now None st)
      else st
  | _, _ => st
  end.

Inductive Event :=
| Prev
| Next
| TypePage (value : string)
| SubmitPage
| TocClick (page : Z)
| KeyDown (inputFocused : bool) (key : string)
| Wheel (el : option Scroll) (deltaY : float) (now : Z)
| TouchStart (clientY : float)
| TouchMove (el : option Scroll) (currentY : float) (now : Z)
| TouchEnd.

Definition step (st : State) (ev : Event) : State :=
  match ev with
  | Prev => handlePrev st
  | Next => handleNext st
  | TypePage value => handlePageInputChange value st
  | SubmitPage => handlePageSubmit st
  | TocClick page => handleTocClick page st
  | KeyDown inputFocused key => handleKeyDown inputFocused key st
  | Wheel el deltaY now => handleWheel el deltaY now st
  | TouchStart clientY => handleTouchStart clientY st
  | TouchMove el currentY now => handleTouchMove el currentY now st
  | TouchEnd => handleTouchEnd st
  end.

(** The component as mounted for a book at a page. *)
Definition mount (b : Book) (page : Z) : State :=
  mkState page (book_totalPages b) (JsNumber.toString (page + 1)) false 0 None.

End Reader.

(** ** [components/FileUpload.tsx] *)

Module FileUpload.

Record State := mkState {
  isLoading : bool;
  error : option string
}.

Definition parseError : string :=
  "Failed to parse file. Please ensure it is a valid PDF or EPUB.".

(** [handleFile], from the drop or the file input to the end of the
    parse; [onBookLoaded] is the session's [handleBookLoaded]. *)
Definition handleFile (window : DocumentUtils.Window) (file : DocumentUtils.File)
    (now : Z) (st : App.State * State) : App.State * State :=
  match DocumentUtils.parseFile window file with
  | DocumentUtils.Ok loadedBook =>
      (App.handleBookLoaded loadedBook now st.1, mkState false None)
  | DocumentUtils.Err message =>
      (st.1,
       mkState false
         (Some (if Js.truthy (Some message) then message else parseError)))
  end.

End FileUpload.

(** ** [App.tsx]: the saved page as the text [localStorage] holds *)

Module Progress.

(** The effect that persists the page, for a loaded book. *)
Definition persist (b : Book) (currentPage : Z) (storage : gmap string string)
    : gmap string string :=
  <[App.progressKey b := JsNumber.toString currentPage]> storage.

(** The page [handleBookLoaded] sets; [None] is [NaN]. *)
Definition restore (loadedBook : Book) (storage : gmap string string) : option Z :=
  match storage !! App.progressKey loadedBook with
  | Some savedPage =>
      if Js.truthy (Some savedPage) then JsNumber.parseInt savedPage else Some 0
  | None => Some 0
  end.

End Progress.

(** ** Reference definitions *)

(** The context window as the spec words it: the pages 0 to [n], each as a
    block of its 1-based ordinal and its text, in ascending order, separated
    by a blank line. *)
Definition specBlock (pages : list string) (k : nat) : string :=
  "[Page " +:+ pretty (S k) +:+ "]: " +:+ default EmptyString (pages !! k).

Definition specContext (pages : list string) (n : nat) : string :=
  Js.join (Js.nl +:+ Js.nl) (specBlock pages <$> seq 0 (S n)).

(** The texts the service hands to its callback, in order: the loop run
    with a callback that records its argument. *)
Definition deliveries (cs : list (option string)) : list string :=
  (GeminiService.streamLoop (λ text log, log ++ [text]) cs (EmptyString, [])).2.

(** Ten earlier turns of a conversation, and the question asked next. *)
Definition turn (n : Z) (r : Role) (text : string) : Message :=
  mkMessage (pretty n) r text n None.

Definition tenTurns : list Message :=
  [turn 1 user "q1"; turn 2 assistant "a1"; turn 3 user "q2"; turn 4 assistant "a2";
   turn 5 user "q3"; turn 6 assistant "a3"; turn 7 user "q4"; turn 8 assistant "a4";
   turn 9 user "q5"; turn 10 assistant "a5"].

Definition newTurn : Message := turn 11 user "q6".

(** A small book, a clock and a session in which one question was asked. *)
Definition demoBook : Book :=
  mkBook "Moby" pdf ["Call me Ishmael."; "Some years ago."] (PdfBuffer "%PDF") 2
    "Moby.pdf" [].

(** An earlier, longer edition under the same file name. *)
Definition longBook : Book :=
  mkBook "Moby" pdf (replicate 10 "Text.") (PdfBuffer "%PDF") 10 "Moby.pdf" [].

Definition clock (k : nat) : Z := 1000 + Z.of_nat k.

Definition askedEvents : list App.Event :=
  [App.BookLoaded demoBook 900; App.Submit "Who is Ahab?" clock].

Definition askedState (apiKey : option string) : App.State :=
  App.run apiKey (App.initialState ∅) askedEvents.

(** What every reachable state of the session satisfies. *)
Definition sessionInvariant (st : App.State) : Prop :=
  (length (App.pending st) ≤ 1)%nat
  ∧ (App.pending st ≠ [] → App.isAiLoading st = true)
  ∧ (is_Some (App.book st) → App.messages st ≠ []).

(** The three fates of an outline node, read off the loop body of
    [processOutline]: it resolves to a page; its destination does not
    resolve (no usable destination and no link, or a reference that pdf.js
    does not find); or it has no usable destination and carries a link. *)
Definition resolvesTo (pdfDoc : DocumentUtils.PdfDocument)
    (item : DocumentUtils.OutlineItem) (p : Z) : Prop :=
  ∃ ref, DocumentUtils.destRef (DocumentUtils.destOf pdfDoc item) = Some ref
         ∧ DocumentUtils.getPageIndex pdfDoc ref = Some p ∧ p ≠ -1.

Definition unresolved (pdfDoc : DocumentUtils.PdfDocument)
    (item : DocumentUtils.OutlineItem) : Prop :=
  match DocumentUtils.destRef (DocumentUtils.destOf pdfDoc item) with
  | Some ref => DocumentUtils.getPageIndex pdfDoc ref = None
                ∨ DocumentUtils.getPageIndex pdfDoc ref = Some (-1)
  | None => Js.truthy (DocumentUtils.item_url item) = false
  end.

Definition externalLink (pdfDoc : DocumentUtils.PdfDocument)
    (item : DocumentUtils.OutlineItem) : Prop :=
  DocumentUtils.destRef (DocumentUtils.destOf pdfDoc item) = None
  ∧ Js.truthy (DocumentUtils.item_url item) = true.



(** Sample documents: a PDF whose outline has a link node above a chapter,
    a PDF without pages, an archive with two chapters and an empty member. *)
Definition chapterNode : DocumentUtils.OutlineItem :=
  DocumentUtils.mkOutlineItem "Chapter 1"
    (DocumentUtils.DestArray [DocumentUtils.RefObj 5 0]) None [].

Definition linkNode : DocumentUtils.OutlineItem :=
  DocumentUtils.mkOutlineItem "Publisher" DocumentUtils.DestNull
    (Some "https://example.org") [chapterNode].

Definition lostNode : DocumentUtils.OutlineItem :=
  DocumentUtils.mkOutlineItem "Part I" (DocumentUtils.DestString "part1") None
    [chapterNode].

Definition samplePdf (outline : list DocumentUtils.OutlineItem) : DocumentUtils.PdfDocument :=
  DocumentUtils.mkPdf 3 (λ i, Some ["page"; pretty i]) (Some outline) (λ _, None)
    (λ ref, match ref with
            | DocumentUtils.RefObj 5 0 => Some 0
            | _ => None
            end).


Definition emptyPdf : DocumentUtils.PdfDocument :=
  DocumentUtils.mkPdf 0 (λ _, None) None (λ _, None) (λ _, None).

Definition sampleArchive : gmap string DocumentUtils.XhtmlMember :=
  list_to_map
  [("OEBPS/ch02.xhtml",
    DocumentUtils.mkMember 0
      (Some (DocumentUtils.mkBody (Some "Second  chapter") "<p>Second chapter</p>")) None);
   ("OEBPS/cover.png", DocumentUtils.mkMember 0 None None);
   ("OEBPS/blank.xhtml",
    DocumentUtils.mkMember 0 (Some (DocumentUtils.mkBody (Some "  ") EmptyString)) None);
   ("OEBPS/ch01.xhtml",
    DocumentUtils.mkMember 1
      (Some (DocumentUtils.mkBody (Some "First chapter") "<p>First chapter</p>"))
      (Some " One "))].

Definition sampleWindow (pdfDoc : DocumentUtils.PdfDocument)
    (archive : gmap string DocumentUtils.XhtmlMember) : DocumentUtils.Window :=
  DocumentUtils.mkWindow (Some (λ _, DocumentUtils.Ok pdfDoc))
    (Some (λ _, DocumentUtils.Ok archive)).

Definition pdfFile : DocumentUtils.File :=
  DocumentUtils.mkFile "book.pdf" "application/pdf" "%PDF-1.7".

Definition epubFile : DocumentUtils.File :=
  DocumentUtils.mkFile "book.epub" "application/epub+zip" "PK".

(** The books the parser makes of the sample documents. *)
Definition parsedPdfBook : Book :=
  mkBook "book" pdf ["page 1"; "page 2"; "page 3"] (PdfBuffer "%PDF-1.7") 3
    "book.pdf" [mkTocItem "Chapter 1" 0 1].


Definition parsedEpubBook : Book :=
  mkBook "book" epub ["First chapter"; "Second chapter"]
    (HtmlPages ["<p>First chapter</p>"; "<p>Second chapter</p>"]) 2 "book.epub"
    [mkTocItem "One" 0 0; mkTocItem "ch02" 1 0].

(** Induction over an outline tree, with the hypothesis for all children. *)
Section OutlineInduction.
Import DocumentUtils.
Variable P : OutlineItem → Prop.
Hypothesis Hnode :
  ∀ t d u children, Forall P children → P (mkOutlineItem t d u children).

Fixpoint OutlineItem_tree_ind (item : OutlineItem) : P item :=
  match item with
  | mkOutlineItem t d u children =>
      Hnode t d u children
        ((fix all (l : list OutlineItem) : Forall P l :=
            match l with
            | [] => List.Forall_nil P
            | child :: rest =>
                List.Forall_cons P child rest (OutlineItem_tree_ind child) (all rest)
            end) children)
  end.
End OutlineInduction.


(** The page shown is a page of the book. *)
Definition pageInRange (st : Reader.State) : Prop :=
  0 ≤ Reader.currentPage st < Reader.totalPages st.

(** The texts of the chunks that carry one, and the whole they add up to;
    the running wholes, each the one before extended by the next text. *)
Definition chunkTexts (cs : list (option string)) : list string :=
  filter (λ t, t ≠ EmptyString) (omap id cs).

Definition wholeText (texts : list string) : string :=
  foldr String.app EmptyString texts.

Fixpoint runningTexts (sofar : string) (texts : list string) : list string :=
  match texts with
  | [] => []
  | t :: rest => (sofar +:+ t) :: runningTexts (sofar +:+ t) rest
  end.

(** A member of an archive that makes a page: it has a body with text
    that is not blank, or an image. *)
Definition makesPage (files : gmap string DocumentUtils.XhtmlMember)
    (name : string) : bool :=
  match files !! name with
  | Some member =>
      match DocumentUtils.body member with
      | Some b =>
          bool_decide (0 < String.length
                         (Js.trim (default EmptyString (DocumentUtils.textContent b))))%nat
          || bool_decide (0 < DocumentUtils.images_length member)%nat
      | None => false
      end
  | None => false
  end.

Definition pageTextOf (files : gmap string DocumentUtils.XhtmlMember)
    (name : string) : string :=
  Js.normalizeText
    match files !! name with
    | Some member =>
        match DocumentUtils.body member with
        | Some b => default EmptyString (DocumentUtils.textContent b)
        | None => EmptyString
        end
    | None => EmptyString
    end.

(** What the loop of [parseEpub] keeps, in full: the pages pushed so far
    are the pages of the members that make one, in the order of the names
    gone through, with one entry each. *)
Definition epubShape (files : gmap string DocumentUtils.XhtmlMember)
    (done : list string) (acc : DocumentUtils.EpubAcc) : Prop :=
  DocumentUtils.textPages acc
  = pageTextOf files <$> filter (λ n, makesPage files n = true) done
  ∧ length (DocumentUtils.htmlPages acc) = length (DocumentUtils.textPages acc)
  ∧ toc_page <$> DocumentUtils.epub_toc acc
    = Z.of_nat <$> seq 0 (length (DocumentUtils.textPages acc))
  ∧ Forall (λ e, toc_level e = 0%nat ∧ toc_title e ≠ EmptyString)
      (DocumentUtils.epub_toc acc).

(** The nodes of an outline in document order, each with its depth. *)
Fixpoint outlineNodes (level : nat) (item : DocumentUtils.OutlineItem)
    : list (string * nat) :=
  match item with
  | DocumentUtils.mkOutlineItem t _ _ children =>
      (t, level) ::
      (fix all (l : list DocumentUtils.OutlineItem) : list (string * nat) :=
         match l with
         | [] => []
         | child :: rest => outlineNodes (S level) child ++ all rest
         end) children
  end.

Definition entryKey (e : TocItem) : string * nat := (toc_title e, toc_level e).

(** What identifies a turn of the chat: its id, who said it and when. *)
Definition turnHeader (m : Message) : string * Role * Z :=
  (msg_id m, msg_role m, msg_timestamp m).

(** The events after which the chat of the open book goes on: all but
    opening a book and going back to the start page. *)
Definition keepsChat (ev : App.Event) : bool :=
  match ev with
  | App.BookLoaded _ _ | App.BackToHome => false
  | _ => true
  end.

(** A path segment that [resolvePath] pushes on its stack. *)
Definition plainPart (part : string) : Prop :=
  part ≠ "."%string ∧ part ≠ ".."%string.

(** The integers a JavaScript number holds exactly, which [toString]
    writes in plain decimal. *)
Definition safeInteger (z : Z) : Prop := - 2 ^ 53 < z < 2 ^ 53.

(** A normalised text: white space occurs in it only as single spaces
    between other characters. *)
Definition startsClean (s : string) : Prop :=
  match s with
  | String c _ => Js.isWhiteSpace c = false
  | EmptyString => True
  end.

Fixpoint endsClean (s : string) : Prop :=
  match s with
  | EmptyString => True
  | String c s' =>
      match s' with
      | EmptyString => Js.isWhiteSpace c = false
      | String _ _ => endsClean s'
      end
  end.

Fixpoint singleSpaced (s : string) : Prop :=
  match s with
  | EmptyString => True
  | String c s' =>
      (Js.isWhiteSpace c = true → c = " "%char ∧ startsClean s') ∧ singleSpaced s'
  end.

Definition tidyText (s : string) : Prop :=
  singleSpaced s ∧ startsClean s ∧ endsClean s.

(** * Properties *)

Import GeminiService.

(** ** The runtime operations on examples *)

Example slice_keeps_last_six :
  Js.slice [1; 2; 3; 4; 5; 6; 7; 8] (-6) None = [3; 4; 5; 6; 7; 8].
Proof. reflexivity. Qed.

Example slice_saturates :
  Js.slice [1; 2; 3] 0 (Some 7) = [1; 2; 3] ∧ Js.slice [1; 2; 3] (-6) None = [1; 2; 3].
Proof. split; reflexivity. Qed.

Example slice_negative_end : Js.slice [1; 2; 3] 0 (Some (-1)) = [1; 2].
Proof. reflexivity. Qed.

Example join_examples :
  Js.join ", " ["a"; "b"; "c"]%string = "a, b, c"%string
  ∧ Js.join ", " ["a"]%string = "a"%string
  ∧ Js.join ", " [] = EmptyString.
Proof. repeat split; reflexivity. Qed.

Example normalizeText_example :
  Js.normalizeText ("  Call  me" +:+ Js.nl +:+ " Ishmael. ") = "Call me Ishmael."%string.
Proof. reflexivity. Qed.

Example chapterTitle_examples :
  DocumentUtils.chapterTitle "OEBPS/text/ch01.xhtml"
    (DocumentUtils.mkMember 0 None (Some "  Loomings ")) 0 = "Loomings"%string
  ∧ DocumentUtils.chapterTitle "OEBPS/text/ch01.v2.xhtml"
      (DocumentUtils.mkMember 0 None None) 0 = "ch01.v2"%string
  ∧ DocumentUtils.chapterTitle "OEBPS/.xhtml"
      (DocumentUtils.mkMember 0 None (Some " ")) 4 = "Chapter 5"%string.
Proof. repeat split; reflexivity. Qed.

Example isHtmlName_examples :
  DocumentUtils.isHtmlName "a/b.xhtml" = true
  ∧ DocumentUtils.isHtmlName "a/b.htm" = true
  ∧ DocumentUtils.isHtmlName "a/cover.png" = false
  ∧ DocumentUtils.isHtmlName "html" = false.
Proof. repeat split; reflexivity. Qed.

(** ** The context window *)

Section ContextWindow.
Implicit Types (pages : list string) (cp : Z) (n : nat).

Lemma take_min_length {A} (l : list A) (a : nat) :
  take (a `min` length l) l = take a l.
Proof.
  destruct (decide (a ≤ length l)%nat).
  - by rewrite Nat.min_l.
  - rewrite Nat.min_r by lia. rewrite !take_ge; [done | lia | lia].
Qed.

(** For a page number that is not negative the slice is a prefix. *)
Lemma pagesRead_take pages cp :
  0 ≤ cp → pagesRead pages cp = take (S (Z.to_nat cp)) pages.
Proof.
  intros Hcp. unfold pagesRead, Js.slice, Js.clampIndex. simpl.
  rewrite bool_decide_eq_false_2 by lia.
  rewrite (Z.min_l 0), Z.sub_0_r by lia. change (Z.to_nat 0) with 0%nat.
  rewrite drop_0. rewrite <- (take_min_length pages (S _)). f_equal. lia.
Qed.

(** A negative number is not a page index: [slice] counts a negative
    second argument from the end of the array. *)
Lemma pagesRead_negative pages cp :
  cp < -1 → pagesRead pages cp = take (length pages - Z.to_nat (- (cp + 1))) pages.
Proof.
  intros Hcp. unfold pagesRead, Js.slice, Js.clampIndex. simpl.
  rewrite bool_decide_eq_true_2 by lia.
  rewrite (Z.min_l 0), Z.sub_0_r by lia. change (Z.to_nat 0) with 0%nat.
  rewrite drop_0. f_equal. lia.
Qed.

Lemma take_agree pages1 pages2 n :
  (∀ k, (k ≤ n)%nat → pages1 !! k = pages2 !! k) →
  take (S n) pages1 = take (S n) pages2.
Proof.
  intros Hagree. apply list_eq. intros i.
  destruct (decide (i < S n)%nat).
  - rewrite !lookup_take_lt by done. apply Hagree. lia.
  - rewrite !lookup_take_ge by lia. done.
Qed.

Lemma blocks_of_prefix pages n :
  (n < length pages)%nat →
  imap pageBlock (take (S n) pages) = specBlock pages <$> seq 0 (S n).
Proof.
  intros Hn. apply list_eq. intros i.
  rewrite list_lookup_imap, list_lookup_fmap.
  destruct (decide (i < S n)%nat) as [Hi|Hi].
  - rewrite lookup_take_lt by done.
    rewrite lookup_seq_lt by done.
    destruct (lookup_lt_is_Some_2 pages i) as [x Hx]; [lia|].
    unfold specBlock, pageBlock. rewrite Hx, Nat.add_1_r. simpl.
    by rewrite Hx.
  - rewrite lookup_take_ge by lia.
    rewrite lookup_seq_ge by lia. done.
Qed.
End ContextWindow.

(** C2 - context derivation.  For a valid page number the window holds
    exactly the pages 0 to [currentPage] inclusive, and the context text is
    what the spec describes: one labelled block per page (1-based ordinal,
    then the text), ascending, joined by a blank line.  The context is a
    function of the two arguments alone. *)
Theorem context_is_labelled_prefix (pages : list string) (cp : Z) :
  0 ≤ cp < Z.of_nat (length pages) →
  pagesRead pages cp = take (S (Z.to_nat cp)) pages
  ∧ length (pagesRead pages cp) = S (Z.to_nat cp)
  ∧ (∀ k, (k ≤ Z.to_nat cp)%nat → pagesRead pages cp !! k = pages !! k)
  ∧ contextText pages cp = specContext pages (Z.to_nat cp).
Proof.
  intros [Hlo Hhi].
  assert (Hpre := pagesRead_take pages cp Hlo).
  split; [done|]. rewrite Hpre. split; [|split].
  - rewrite length_take. lia.
  - intros k Hk. apply lookup_take_lt. lia.
  - unfold contextText, specContext. rewrite Hpre.
    rewrite blocks_of_prefix by lia. done.
Qed.

Lemma context_is_labelled_prefix_witness :
  contextText ["Once"; "upon"; "a time"]%string 1
  = ("[Page 1]: Once" +:+ Js.nl +:+ Js.nl +:+ "[Page 2]: upon")%string.
Proof.
  destruct (context_is_labelled_prefix ["Once"; "upon"; "a time"]%string 1)
    as (_ & _ & _ & ->).
  - simpl. lia.
  - reflexivity.
Defined.

(** C1 - no leakage.  Two books that agree on the pages 0 to [n] yield the
    same context text, the same generation request and the same run of
    [generateAssistantResponse], whatever their later pages are. *)
Theorem later_pages_never_enter_the_request
    {S} (onChunk : string → S → S) (apiKey : option string)
    (provider : GenerateRequest → ResponseStream)
    (history : list Message) (pages1 pages2 : list string) (n : nat) (st : S) :
  (∀ k, (k ≤ n)%nat → pages1 !! k = pages2 !! k) →
  contextText pages1 (Z.of_nat n) = contextText pages2 (Z.of_nat n)
  ∧ buildRequest history pages1 (Z.of_nat n) = buildRequest history pages2 (Z.of_nat n)
  ∧ generateAssistantResponse onChunk apiKey provider history pages1 (Z.of_nat n) st
    = generateAssistantResponse onChunk apiKey provider history pages2 (Z.of_nat n) st.
Proof.
  intros Hagree.
  assert (Hread : pagesRead pages1 (Z.of_nat n) = pagesRead pages2 (Z.of_nat n)).
  { rewrite !pagesRead_take by lia. rewrite Nat2Z.id. by apply take_agree. }
  assert (Hctx : contextText pages1 (Z.of_nat n) = contextText pages2 (Z.of_nat n)).
  { unfold contextText. by rewrite Hread. }
  assert (Hreq : buildRequest history pages1 (Z.of_nat n)
                 = buildRequest history pages2 (Z.of_nat n)).
  { unfold buildRequest, systemInstruction. by rewrite Hctx. }
  split; [done|]. split; [done|].
  unfold generateAssistantResponse. by rewrite Hreq.
Qed.

Lemma later_pages_never_enter_the_request_witness :
  contextText ["A"; "B"; "C"]%string 1 = contextText ["A"; "B"; "Z"; "W"]%string 1.
Proof.
  refine (proj1 (later_pages_never_enter_the_request
                   (λ _ (u : unit), u) None (λ _, mkStream [] Completed) []
                   ["A"; "B"; "C"]%string ["A"; "B"; "Z"; "W"]%string 1 tt _)).
  intros [|[|k]] Hk; [reflexivity | reflexivity | lia].
Defined.

(** C10 - a page number at or beyond the end.  The slice saturates: the
    window is the whole book and the context is that of all its pages, the
    same as at the last valid page number. *)
Theorem stale_page_number_gives_whole_book (pages : list string) (cp : Z) :
  Z.of_nat (length pages) ≤ cp →
  pagesRead pages cp = pages
  ∧ contextText pages cp = Js.join (Js.nl +:+ Js.nl) (imap pageBlock pages)
  ∧ contextText pages cp = contextText pages (Z.of_nat (length pages) - 1).
Proof.
  intros Hlen.
  assert (Hall : pagesRead pages cp = pages).
  { rewrite pagesRead_take by lia. apply take_ge. lia. }
  split; [done|]. unfold contextText. rewrite Hall. split; [done|].
  destruct pages as [|p pages']; [done|].
  rewrite pagesRead_take by (simpl length; lia).
  rewrite take_ge; [done|]. simpl length. lia.
Qed.

Lemma stale_page_number_gives_whole_book_witness :
  contextText ["A"; "B"]%string 7
  = ("[Page 1]: A" +:+ Js.nl +:+ Js.nl +:+ "[Page 2]: B")%string.
Proof.
  destruct (stale_page_number_gives_whole_book ["A"; "B"]%string 7)
    as (_ & -> & _).
  - simpl. lia.
  - reflexivity.
Defined.

(** How such a page number comes about: the page saved for a longer book
    is restored for a shorter file of the same name. *)
Lemma stale_progress_is_restored :
  let st := App.run None (App.initialState ∅)
              [App.BookLoaded longBook 1; App.PageChange 8; App.BackToHome;
               App.BookLoaded demoBook 2] in
  App.book st = Some demoBook
  ∧ App.currentPage st = 8
  ∧ length (book_content demoBook) = 2%nat
  ∧ contextText (book_content demoBook) (App.currentPage st)
    = ("[Page 1]: Call me Ishmael." +:+ Js.nl +:+ Js.nl
       +:+ "[Page 2]: Some years ago.")%string.
Proof. by vm_compute. Qed.

(** ** The history window *)

Section HistoryWindow.
Implicit Types (prior : list Message) (u : Message).

Lemma slice_tail {A} (l : list A) (n : nat) :
  (0 < n)%nat → Js.slice l (- Z.of_nat n) None = drop (length l - n) l.
Proof.
  intros Hn. unfold Js.slice, Js.clampIndex. simpl.
  rewrite (bool_decide_eq_true_2 (- Z.of_nat n < 0)) by lia.
  rewrite (bool_decide_eq_false_2 (Z.of_nat (length l) < 0)) by lia.
  rewrite Z.min_id.
  replace (Z.to_nat ((Z.of_nat (length l) + - Z.of_nat n) `max` 0))
    with (length l - n)%nat by lia.
  apply take_ge. rewrite length_drop. lia.
Qed.

Lemma historyWindow_drop (h : list Message) :
  historyWindow h =
  drop (length (filter (λ m, msg_role m ≠ system) h) - 6)
       (filter (λ m, msg_role m ≠ system) h).
Proof. unfold historyWindow. apply (slice_tail _ 6). lia. Qed.

Lemma historyWindow_length (h : list Message) : (length (historyWindow h) ≤ 6)%nat.
Proof. rewrite historyWindow_drop, length_drop. lia. Qed.

(** The turn just asked is part of the history handed over, so it takes
    the last place of the window and leaves five for the earlier turns. *)
Lemma historyWindow_snoc prior u :
  msg_role u = user →
  historyWindow (prior ++ [u]) =
  drop (length (filter (λ m, msg_role m ≠ system) prior) - 5)
       (filter (λ m, msg_role m ≠ system) prior) ++ [u].
Proof.
  intros Hu. rewrite historyWindow_drop, filter_app.
  rewrite (filter_cons_True _ u) by (rewrite Hu; done).
  rewrite filter_nil, length_app. simpl.
  set (fp := filter _ prior).
  rewrite drop_app_le by lia. f_equal. f_equal. lia.
Qed.

(** The window keeps no system message and is the tail end, in order, of
    what the filter leaves. *)
Lemma historyWindow_no_system (h : list Message) :
  Forall (λ m, msg_role m ≠ system) (historyWindow h).
Proof.
  rewrite historyWindow_drop. apply Forall_drop.
  apply Forall_forall. by intros m [Hm _]%list_elem_of_filter.
Qed.

Lemma historyWindow_suffix (h : list Message) :
  historyWindow h `suffix_of` filter (λ m, msg_role m ≠ system) h.
Proof. rewrite historyWindow_drop. apply suffix_drop. Qed.

End HistoryWindow.

(** C3 - the history window, at ten earlier turns.  The window holds the
    last five of them and the new question; the question is then sent a
    second time on the line of its own, followed by the cue for the
    answer.  The sixth most recent earlier turn is not sent. *)
Theorem ten_turns_prompt_repeats_the_question :
  historyWindow (tenTurns ++ [newTurn]) = drop 5 tenTurns ++ [newTurn]
  ∧ (contents <$> buildRequest (tenTurns ++ [newTurn]) ["page"]%string 0) =
    Some (Js.nl +:+
          "    Assistant: a3" +:+ Js.nl +:+
          "User: q4" +:+ Js.nl +:+
          "Assistant: a4" +:+ Js.nl +:+
          "User: q5" +:+ Js.nl +:+
          "Assistant: a5" +:+ Js.nl +:+
          "User: q6" +:+ Js.nl +:+
          "    User: q6" +:+ Js.nl +:+
          "    Assistant:" +:+ Js.nl +:+
          "  ")%string
  ∧ turn 5 user "q3" ∉ historyWindow (tenTurns ++ [newTurn]).
Proof.
  split; [|split].
  - rewrite historyWindow_snoc by done. reflexivity.
  - vm_compute. reflexivity.
  - rewrite historyWindow_snoc by done.
    vm_compute. intros Hin. repeat (apply elem_of_cons in Hin as [Heq|Hin]; [discriminate Heq|]).
    by apply elem_of_nil in Hin.
Qed.

(** ** Streaming *)

Section StreamingFacts.
Import App.
Implicit Types (aid : string) (msgs : list Message) (cs : list (option string)).

Lemma onChunk_lookup aid text msgs i m :
  msgs !! i = Some m →
  onChunk aid text msgs !! i =
  Some (if decide (msg_id m = aid)
        then mkMessage (msg_id m) (msg_role m) text (msg_timestamp m) (msg_isStreaming m)
        else m).
Proof. intros Hm. unfold onChunk. by rewrite list_lookup_fmap, Hm. Qed.

(** A later delivery overwrites an earlier one. *)
Lemma onChunk_onChunk aid text1 text2 msgs :
  onChunk aid text2 (onChunk aid text1 msgs) = onChunk aid text2 msgs.
Proof.
  unfold onChunk. rewrite <- list_fmap_compose. apply list_fmap_ext.
  intros _ m _. simpl. destruct (decide (msg_id m = aid)) as [Heq|Hne]; simpl.
  - by rewrite decide_True.
  - by rewrite decide_False.
Qed.

Lemma onChunk_absorbs aid text (snaps : list string) msgs :
  onChunk aid text (foldl (λ ms c, onChunk aid c ms) msgs snaps) = onChunk aid text msgs.
Proof.
  revert msgs. induction snaps as [|c snaps IH]; intros msgs; simpl; [done|].
  by rewrite IH, onChunk_onChunk.
Qed.

Lemma onChunk_content aid text msgs m :
  m ∈ onChunk aid text msgs → msg_id m = aid → msg_content m = text.
Proof.
  unfold onChunk. intros (m0 & -> & _)%list_elem_of_fmap.
  destruct (decide (msg_id m0 = aid)); simpl; [done|]. intros; contradiction.
Qed.

Lemma streamLoop_cons {S} (f : string → S → S) c cs (acc : string * S) :
  streamLoop f (c :: cs) acc = streamLoop f cs (onStreamChunk f c acc).
Proof. reflexivity. Qed.

(** The loop of the service, whatever the callback: the callback is run
    on the recorded deliveries, and the text returned is the last of them. *)
Lemma recorder_shift cs text (log0 : list string) :
  streamLoop (λ t log, log ++ [t]) cs (text, log0) =
  ((streamLoop (λ t log, log ++ [t]) cs (text, [])).1,
   log0 ++ (streamLoop (λ t log, log ++ [t]) cs (text, [])).2).
Proof.
  revert text log0. induction cs as [|c cs IH]; intros text log0.
  - simpl. by rewrite app_nil_r.
  - rewrite !streamLoop_cons. unfold onStreamChunk. cbn [fst snd].
    destruct (Js.truthy c).
    + rewrite (IH _ (log0 ++ _)), (IH _ ([] ++ _)). cbn [fst snd].
      by rewrite <- app_assoc.
    + apply IH.
Qed.

Lemma streamLoop_deliveries {S} (f : string → S → S) cs text (st : S) :
  streamLoop f cs (text, st) =
  (default text (last (streamLoop (λ t log, log ++ [t]) cs (text, [])).2),
   foldl (λ s t, f t s) st (streamLoop (λ t log, log ++ [t]) cs (text, [])).2).
Proof.
  revert text st. induction cs as [|c cs IH]; intros text st; [done|].
  rewrite !streamLoop_cons. unfold onStreamChunk. cbn [fst snd].
  destruct (Js.truthy c).
  - rewrite IH, (recorder_shift cs _ ([] ++ _)). cbn [fst snd app foldl]. f_equal.
    destruct (streamLoop _ cs (_, [])).2 as [|d ds]; [done|].
    rewrite last_cons_cons.
    destruct (last (d :: ds)) eqn:Hl; [done|]. by apply last_None in Hl.
  - apply IH.
Qed.

Lemma string_app_assoc (s1 s2 s3 : string) :
  (s1 +:+ s2) +:+ s3 = s1 +:+ (s2 +:+ s3).
Proof.
  induction s1 as [|a s1 IH]; [done|].
  change (String a ((s1 +:+ s2) +:+ s3) = String a (s1 +:+ (s2 +:+ s3))).
  by rewrite IH.
Qed.

Lemma string_app_nil_r (s : string) : s +:+ EmptyString = s.
Proof.
  induction s as [|a s IH]; [done|].
  change (String a (s +:+ EmptyString) = String a s). by rewrite IH.
Qed.

(** The text the loop returns is the text it started with and the texts
    of the chunks after it. *)
Lemma streamLoop_text {S} (f : string → S → S) cs text (st : S) :
  (streamLoop f cs (text, st)).1 = text +:+ wholeText (chunkTexts cs).
Proof.
  revert text st. induction cs as [|c cs IH]; intros text st.
  - simpl. by rewrite string_app_nil_r.
  - rewrite streamLoop_cons. unfold onStreamChunk. cbn [fst snd].
    destruct c as [[|a t]|]; cbn [Js.truthy]; rewrite ?IH; try done.
    unfold chunkTexts. cbn [omap list_omap id]. fold (omap id cs).
    rewrite filter_cons_True by done. cbn [wholeText foldr default].
    fold (wholeText (filter (λ t, t ≠ EmptyString) (omap id cs))).
    by rewrite string_app_assoc.
Qed.

Lemma recorder_running cs text :
  (streamLoop (λ t log, log ++ [t]) cs (text, [])).2
  = runningTexts text (chunkTexts cs).
Proof.
  revert text. induction cs as [|c cs IH]; intros text; [done|].
  rewrite streamLoop_cons. unfold onStreamChunk. cbn [fst snd].
  destruct c as [[|a t]|]; cbn [Js.truthy]; rewrite ?IH; try done.
  rewrite (recorder_shift cs _ ([] ++ _)). cbn [snd app]. rewrite IH.
  unfold chunkTexts. cbn [omap list_omap id]. fold (omap id cs).
  by rewrite filter_cons_True by done.
Qed.

Lemma runningTexts_last sofar (texts : list string) :
  texts ≠ [] →
  last (runningTexts sofar texts) = Some (sofar +:+ wholeText texts).
Proof.
  revert sofar. induction texts as [|t texts IH]; intros sofar Hne; [done|].
  destruct texts as [|t2 texts].
  - simpl. by rewrite string_app_nil_r.
  - change (runningTexts sofar (t :: t2 :: texts))
      with ((sofar +:+ t) :: runningTexts (sofar +:+ t) (t2 :: texts)).
    change (runningTexts (sofar +:+ t) (t2 :: texts))
      with (((sofar +:+ t) +:+ t2) :: runningTexts ((sofar +:+ t) +:+ t2) texts).
    rewrite last_cons_cons.
    change (((sofar +:+ t) +:+ t2) :: runningTexts ((sofar +:+ t) +:+ t2) texts)
      with (runningTexts (sofar +:+ t) (t2 :: texts)).
    rewrite IH by done. cbn [wholeText foldr]. by rewrite string_app_assoc.
Qed.

Example deliveries_are_cumulative :
  deliveries [Some "H"; Some "e"; None; Some EmptyString; Some "llo"]%string
  = ["H"; "He"; "Hello"]%string.
Proof. reflexivity. Qed.

End StreamingFacts.

(** C4 - streaming.  The chunks of the generator carry pieces of text.
    The service keeps the text seen so far, that is, the texts of the
    chunks so far put one after the other, and hands the whole of it to
    the session at every chunk that has text; the session puts what it is
    handed in the place of the turn's text.  So for every sequence of
    chunks (and hence after every chunk of it) the turn with the
    placeholder's id reads exactly the cumulative text, which is also what
    the service returns; delivering a sequence of texts leaves the turn as
    delivering only the last of them does. *)
Theorem streamed_text_replaces
    (aid : string) (msgs : list Message) (cs : list (option string)) :
  let texts := chunkTexts cs in
  let shown := (streamLoop (App.onChunk aid) cs (EmptyString, msgs)).2 in
  deliveries cs = runningTexts EmptyString texts
  ∧ shown = foldl (λ ms text, App.onChunk aid text ms) msgs (deliveries cs)
  ∧ (∀ (snaps : list string) final, last snaps = Some final →
       foldl (λ ms text, App.onChunk aid text ms) msgs snaps
       = App.onChunk aid final msgs)
  ∧ (texts ≠ [] →
     shown = App.onChunk aid (wholeText texts) msgs
     ∧ ∀ m, m ∈ shown → msg_id m = aid → msg_content m = wholeText texts)
  ∧ (texts = [] → shown = msgs)
  ∧ (streamLoop (App.onChunk aid) cs (EmptyString, msgs)).1 = wholeText texts.
Proof.
  intros texts shown.
  assert (Hlast : ∀ (snaps : list string) final, last snaps = Some final →
            foldl (λ ms text, App.onChunk aid text ms) msgs snaps
            = App.onChunk aid final msgs).
  { intros snaps final [snaps' ->]%last_Some.
    rewrite foldl_app. simpl. apply onChunk_absorbs. }
  assert (Hrun : deliveries cs = runningTexts EmptyString texts)
    by apply recorder_running.
  assert (Hshown : shown = foldl (λ ms text, App.onChunk aid text ms) msgs (deliveries cs)).
  { unfold shown, deliveries. by rewrite streamLoop_deliveries. }
  split; [done|]. split; [done|]. split; [done|]. split; [|split].
  - intros Hne.
    assert (shown = App.onChunk aid (wholeText texts) msgs) as ->.
    { rewrite Hshown, Hrun. apply Hlast. by apply runningTexts_last. }
    split; [done|]. apply onChunk_content.
  - intros Hnil. by rewrite Hshown, Hrun, Hnil.
  - apply (streamLoop_text (App.onChunk aid) cs EmptyString msgs).
Qed.

Lemma streamed_text_replaces_witness :
  (streamLoop (App.onChunk "8")
     [Some "H"; None; Some "e"; Some EmptyString; Some "llo"]%string
     (EmptyString,
      [mkMessage "7" user "Who is Ahab?" 7 None;
       mkMessage "8" assistant EmptyString 8 (Some true)])).2
  = [mkMessage "7" user "Who is Ahab?" 7 None;
     mkMessage "8" assistant "Hello" 8 (Some true)]
  ∧ foldl (λ ms text, App.onChunk "8" text ms)
      [mkMessage "7" user "Who is Ahab?" 7 None;
       mkMessage "8" assistant EmptyString 8 (Some true)]
      ["H"; "He"; "Hello"]%string
    = [mkMessage "7" user "Who is Ahab?" 7 None;
       mkMessage "8" assistant "Hello" 8 (Some true)].
Proof.
  destruct (streamed_text_replaces "8"
              [mkMessage "7" user "Who is Ahab?" 7 None;
               mkMessage "8" assistant EmptyString 8 (Some true)]
              [Some "H"; None; Some "e"; Some EmptyString; Some "llo"]%string)
    as (_ & _ & Hlast & Hshown & _).
  split.
  - destruct Hshown as [-> _]; [discriminate|reflexivity].
  - rewrite (Hlast ["H"; "He"; "Hello"]%string "Hello"%string eq_refl). reflexivity.
Defined.

(** ** The chat session *)

Section SessionFacts.
Import App.
Context (apiKey : option string).
Implicit Types (st : State) (ev : Event).

Lemma reachable_run st evs : reachable apiKey st → reachable apiKey (run apiKey st evs).
Proof.
  revert st. induction evs as [|ev evs IH]; intros st Hst; simpl; [done|].
  apply IH. by constructor.
Qed.

Lemma persistProgress_invariant st : sessionInvariant st → sessionInvariant (persistProgress st).
Proof.
  intros Hinv. unfold persistProgress.
  destruct (book st) as [b|] eqn:Hb; [|done].
  destruct Hinv as (Hone & Hload & Hmsgs).
  repeat split; simpl; [done | done |]. intros _. apply Hmsgs. by rewrite Hb.
Qed.

Lemma handleSendMessage_invariant content now st :
  App.pending st = [] → sessionInvariant (handleSendMessage apiKey content now st).
Proof.
  intros Hidle. unfold handleSendMessage.
  destruct (book st) as [b|] eqn:Hb.
  - destruct (getClient apiKey ≫= _) as [req|]; unfold sessionInvariant; simpl.
    + rewrite Hidle. simpl. repeat split; [lia|]. intros _ Hnil.
      by apply app_eq_nil in Hnil as [_ ?].
    + rewrite Hidle. repeat split; [simpl; lia | done |]. intros _ Hnil.
      by apply app_eq_nil in Hnil as [_ ?].
  - unfold sessionInvariant. rewrite Hidle, Hb. repeat split; [simpl; lia | done |].
    by intros [? ?].
Qed.

Lemma idle_when_not_loading st :
  sessionInvariant st → isAiLoading st = false → App.pending st = [].
Proof.
  intros (_ & Hload & _) Hfalse. destruct (App.pending st) as [|p ps]; [done|].
  rewrite Hload in Hfalse; done.
Qed.

Lemma step_invariant st ev : sessionInvariant st → sessionInvariant (step apiKey st ev).
Proof.
  intros Hinv. pose proof Hinv as (Hone & Hload & Hmsgs).
  destruct ev as [b now| |page|inputValue now|i now|open|k chunk|k e]; simpl.
  - apply persistProgress_invariant. by repeat split.
  - repeat split; simpl; [done..|]. by intros [? ?].
  - apply persistProgress_invariant. by repeat split.
  - unfold handleSubmit.
    destruct (Js.truthy _); simpl; [|done].
    destruct (isAiLoading st) eqn:Hl; simpl; [done|].
    apply handleSendMessage_invariant. by apply idle_when_not_loading.
  - unfold clickSuggestion.
    destruct (book st) as [b|] eqn:Hb; [|done].
    destruct (messages st) eqn:Hm; [|done].
    exfalso. by apply Hmsgs.
  - by repeat split.
  - unfold receiveChunk. destruct (App.pending st !! k) as [p|] eqn:Hp; [|done].
    destruct (onStreamChunk _ _ _) as [text msgs] eqn:Hchunk.
    assert (Hlen : length msgs = length (messages st)).
    { unfold onStreamChunk in Hchunk. destruct (Js.truthy chunk); simplify_eq/=.
      - unfold onChunk. by rewrite length_fmap.
      - done. }
    repeat split; simpl.
    + by rewrite length_insert.
    + intros _. apply Hload. intros Hnil. by rewrite Hnil in Hp.
    + intros Hb Hnil. apply (Hmsgs Hb). apply length_zero_iff_nil.
      rewrite <- Hlen, Hnil. done.
  - unfold finishCall. destruct (App.pending st !! k) as [p|] eqn:Hp; [|done].
    assert (Hdel : delete k (App.pending st) = []).
    { apply length_zero_iff_nil. apply lookup_lt_Some in Hp.
      rewrite length_delete by (by apply lookup_lt_is_Some_2). lia. }
    repeat split; simpl.
    + rewrite Hdel. simpl. lia.
    + by rewrite Hdel.
    + intros Hb Hnil. apply (Hmsgs Hb). unfold finishStreaming in Hnil.
      by apply fmap_nil_inv in Hnil.
Qed.

Lemma reachable_invariant st : reachable apiKey st → sessionInvariant st.
Proof.
  induction 1 as [storage|st ev _ IH].
  - repeat split; simpl; [lia | done |]. by intros [? ?].
  - by apply step_invariant.
Qed.

(** The outcome of the awaited call has no part in what happens next. *)
Lemma finishCall_ignores_outcome k st :
  finishCall k Errored st = finishCall k Completed st.
Proof. reflexivity. Qed.

Lemma finishCall_keeps_texts k e st :
  msg_content <$> messages (finishCall k e st) = msg_content <$> messages st.
Proof.
  unfold finishCall. destruct (App.pending st !! k) as [p|]; [|done]. simpl.
  unfold finishStreaming. rewrite <- list_fmap_compose. apply list_fmap_ext.
  intros _ m _. simpl. by destruct (decide _).
Qed.

(** The chunk events of an awaited call are the turns of the service's
    loop. *)
Lemma run_chunks st p cs :
  App.pending st = [p] →
  messages (run apiKey st (Chunk 0 <$> cs))
  = (streamLoop (onChunk (assistantMsgId p)) cs (fullText p, messages st)).2
  ∧ App.pending (run apiKey st (Chunk 0 <$> cs))
    = [mkPending (assistantMsgId p)
         (streamLoop (onChunk (assistantMsgId p)) cs (fullText p, messages st)).1].
Proof.
  revert st p. induction cs as [|c cs IH]; intros st p Hp.
  - simpl. by destruct p.
  - rewrite fmap_cons. cbn [run foldl step]. fold (run apiKey).
    rewrite streamLoop_cons.
    destruct (onStreamChunk (onChunk (assistantMsgId p)) c (fullText p, messages st))
      as [text msgs] eqn:Hchunk.
    assert (Hnext : App.pending (receiveChunk 0 c st) = [mkPending (assistantMsgId p) text]
                    ∧ messages (receiveChunk 0 c st) = msgs).
    { unfold receiveChunk. rewrite Hp. simpl. by rewrite Hchunk. }
    destruct Hnext as [Hpend Hmsgs].
    destruct (IH _ _ Hpend) as [IHm IHp]. simpl in IHm, IHp.
    rewrite Hmsgs in IHm, IHp. done.
Qed.

(** A whole question, from the submit to the return of the call, leaves
    the messages that [generateAssistantResponse] leaves when it is run
    with the session's callback, with the streaming flag cleared. *)
Lemma question_matches_service st b inputValue now cs e :
  book st = Some b → isAiLoading st = false → App.pending st = [] →
  Js.truthy (Some (Js.trim inputValue)) = true →
  is_Some (getClient apiKey) →
  let userMsg := mkMessage (pretty (now 0%nat)) user inputValue (now 1%nat) None in
  let aid := pretty (now 2%nat + 1) in
  let shown := (messages st ++ [userMsg])
               ++ [mkMessage aid assistant EmptyString (now 3%nat) (Some true)] in
  messages (run apiKey st ([Submit inputValue now] ++ (Chunk 0 <$> cs) ++ [CallEnds 0 e]))
  = finishStreaming aid
      (generateAssistantResponse (onChunk aid) apiKey (λ _, mkStream cs e)
         (messages st ++ [userMsg]) (book_content b) (currentPage st) shown).2.
Proof.
  intros Hb Hidle Hpend Hinput [key Hkey] userMsg aid shown.
  assert (Hreq : is_Some (buildRequest (messages st ++ [userMsg]) (book_content b)
                            (currentPage st))).
  { unfold buildRequest. rewrite last_snoc. by eexists. }
  destruct Hreq as [req Hreq].
  unfold generateAssistantResponse. rewrite Hkey, Hreq. cbn [chunks ending].
  unfold run. rewrite foldl_app. cbn [foldl step].
  unfold handleSubmit. rewrite Hinput, Hidle. cbn [negb andb].
  unfold handleSendMessage. rewrite Hb, Hkey. cbn [mbind option_bind].
  fold userMsg. rewrite Hreq. fold aid. fold shown. rewrite Hpend. cbn [app].
  rewrite foldl_app. cbn [foldl step].
  set (st1 := mkState _ _ shown _ _ _ [mkPending aid EmptyString] _).
  destruct (run_chunks st1 (mkPending aid EmptyString) cs eq_refl) as [Hm Hp].
  unfold run in Hm, Hp. unfold finishCall. rewrite Hp. cbn [lookup list_lookup].
  cbn [messages assistantMsgId]. rewrite Hm. cbn [assistantMsgId fullText messages st1].
  destruct (streamLoop (onChunk aid) cs (EmptyString, shown)) as [text msgs].
  by destruct e.
Qed.

End SessionFacts.

(** C8 - at most one request in flight.  In every reachable state at
    most one call of the generator is awaited; while one is, submitting the
    form changes nothing (no request goes out, no turn is added), and the
    suggestion buttons, which would not ask, are never live in a reachable
    state. *)
Theorem at_most_one_request_in_flight (apiKey : option string) (st : App.State) :
  App.reachable apiKey st →
  (length (App.pending st) ≤ 1)%nat
  ∧ (App.pending st ≠ [] →
     ∀ inputValue now, App.step apiKey st (App.Submit inputValue now) = st)
  ∧ (∀ i now, App.step apiKey st (App.Suggestion i now) = st).
Proof.
  intros (Hone & Hload & Hmsgs)%reachable_invariant.
  split; [done|]. split.
  - intros Hbusy inputValue now. simpl. unfold App.handleSubmit.
    rewrite (Hload Hbusy). by rewrite andb_false_r.
  - intros i now. simpl. unfold App.clickSuggestion.
    destruct (App.book st) as [b|] eqn:Hb; [|done].
    destruct (App.messages st) eqn:Hm; [|done].
    exfalso. by apply Hmsgs.
Qed.

Lemma at_most_one_request_in_flight_witness :
  length (App.pending (askedState (Some "key"%string))) = 1%nat
  ∧ App.step (Some "key"%string) (askedState (Some "key"%string))
      (App.Submit "And Queequeg?" clock)
    = askedState (Some "key"%string).
Proof.
  destruct (at_most_one_request_in_flight (Some "key"%string)
              (askedState (Some "key"%string))) as (_ & Hsubmit & _).
  - apply reachable_run. constructor.
  - split; [reflexivity|]. apply Hsubmit. by vm_compute.
Defined.

(** The guard is that of the form: [handleSendMessage] called on its own
    while a call is awaited would send a second request. *)
Lemma handleSendMessage_has_no_guard :
  length (App.pending
            (App.handleSendMessage (Some "key"%string) "And Queequeg?" clock
               (askedState (Some "key"%string)))) = 2%nat.
Proof. by vm_compute. Qed.

(** What the session shows when the key is missing: the call is rejected,
    the catch block adds a turn with an apology of its own and the
    placeholder keeps its streaming flag. *)
Lemma missing_key_appends_error_turn :
  App.messages (askedState None) =
  [App.welcomeMessage demoBook 900;
   mkMessage "1000" user "Who is Ahab?" 1001 None;
   mkMessage "1003" assistant EmptyString 1003 (Some true);
   mkMessage "1004" assistant App.errorText 1005 None]
  ∧ App.isAiLoading (askedState None) = false
  ∧ App.sent (askedState None) = [].
Proof. by vm_compute. Qed.

(** C5 - failure of the generator.  A question is asked and the stream
    fails before its first chunk.  The service returns its fallback text,
    but the session does not look at what the call returns: the assistant
    turn ends with the streaming flag cleared and the session idle, and its
    text is still empty. *)
Theorem provider_error_leaves_turn_empty :
  let st := App.run (Some "key"%string) (askedState (Some "key"%string))
              [App.CallEnds 0 Errored] in
  App.messages st =
    [App.welcomeMessage demoBook 900;
     mkMessage "1000" user "Who is Ahab?" 1001 None;
     mkMessage "1003" assistant EmptyString 1003 (Some false)]
  ∧ App.isAiLoading st = false
  ∧ App.pending st = []
  ∧ length (App.sent st) = 1%nat
  ∧ (fallbackText ∉ msg_content <$> App.messages st)
  ∧ generateAssistantResponse (App.onChunk "1003") (Some "key"%string)
      (λ _, mkStream [] Errored)
      [App.welcomeMessage demoBook 900; mkMessage "1000" user "Who is Ahab?" 1001 None]
      (book_content demoBook) 0
      (App.messages (askedState (Some "key"%string)))
    = (Resolved fallbackText, App.messages (askedState (Some "key"%string))).
Proof.
  repeat split; try by vm_compute.
  vm_compute. intros Hin.
  repeat (apply elem_of_cons in Hin as [Heq|Hin]; [discriminate Heq|]).
  by apply elem_of_nil in Hin.
Qed.

(** ** The outline walk *)


Section OutlineWalk.
Import DocumentUtils.
Context (pdfDoc : PdfDocument).
Implicit Types (item child : OutlineItem) (toc : list TocItem) (level : nat).

(** The loop body, with the inner loop read as [processOutline]. *)
Lemma processItem_eq level item toc :
  processItem pdfDoc level item toc =
  match lookupPage pdfDoc item with
  | None => toc
  | Some pageIndex =>
      processOutline pdfDoc (item_items item) (S level)
        (pushEntry item pageIndex level toc)
  end.
Proof.
  destruct item as [t d u children]. cbn [processItem].
  destruct (lookupPage pdfDoc _) as [pageIndex|]; [|done].
  cbn [item_items]. unfold processOutline.
  generalize (pushEntry (mkOutlineItem t d u children) pageIndex level toc).
  induction children as [|child rest IH]; intros acc; [done|]. apply IH.
Qed.

Lemma processOutline_cons level item rest toc :
  processOutline pdfDoc (item :: rest) level toc =
  processOutline pdfDoc rest level (processItem pdfDoc level item toc).
Proof. reflexivity. Qed.

Lemma pushEntry_acc item p level toc :
  pushEntry item p level toc = toc ++ pushEntry item p level [].
Proof. unfold pushEntry. destruct (bool_decide _); [done|by rewrite app_nil_r]. Qed.

(** The walk only appends to the table of contents. *)
Lemma processItem_acc item :
  ∀ level toc, processItem pdfDoc level item toc = toc ++ processItem pdfDoc level item [].
Proof.
  induction item as [t d u children IH] using OutlineItem_tree_ind.
  intros level toc. rewrite !processItem_eq.
  destruct (lookupPage pdfDoc _) as [p|]; [|by rewrite app_nil_r].
  cbn [item_items]. rewrite (pushEntry_acc _ _ _ toc).
  generalize (pushEntry (mkOutlineItem t d u children) p level []). intros extra.
  revert toc extra. induction IH as [|child rest Hchild _ IHrest]; intros toc extra.
  - done.
  - rewrite !processOutline_cons. rewrite (Hchild _ (toc ++ extra)), (Hchild _ extra).
    rewrite <- app_assoc. apply IHrest.
Qed.

Lemma processOutline_acc items level toc :
  processOutline pdfDoc items level toc = toc ++ processOutline pdfDoc items level [].
Proof.
  revert toc. induction items as [|item rest IH]; intros toc.
  - by rewrite app_nil_r.
  - rewrite !processOutline_cons, IH, (IH (processItem _ _ _ [])).
    rewrite (processItem_acc item level toc). by rewrite app_assoc.
Qed.

(** What holds of every entry that is pushed holds of the whole table. *)
Lemma processItem_Forall (Q : TocItem → Prop) :
  (∀ item ref p level, getPageIndex pdfDoc ref = Some p → p ≠ -1 →
     destRef (destOf pdfDoc item) = Some ref →
     Q (mkTocItem (item_title item) p level)) →
  ∀ item level toc, Forall Q toc → Forall Q (processItem pdfDoc level item toc).
Proof.
  intros Hpush item.
  induction item as [t d u children IH] using OutlineItem_tree_ind.
  intros level toc Htoc. rewrite processItem_eq.
  destruct (lookupPage pdfDoc _) as [p|] eqn:Hlook; [|done].
  cbn [item_items].
  assert (Hacc : Forall Q (pushEntry (mkOutlineItem t d u children) p level toc)).
  { unfold pushEntry. case_bool_decide as Hp; [|done].
    apply Forall_app. split; [done|]. apply Forall_singleton.
    unfold lookupPage in Hlook.
    destruct (destRef _) as [ref|] eqn:Href.
    - destruct (getPageIndex pdfDoc ref) as [q|] eqn:Hq; simplify_eq/=.
      by apply (Hpush (mkOutlineItem t d u children) ref).
    - destruct (Js.truthy _); simplify_eq/=. }
  clear Hlook. revert Hacc. generalize (pushEntry (mkOutlineItem t d u children) p level toc).
  induction IH as [|child rest Hchild _ IHrest]; intros acc Hacc; [done|].
  rewrite processOutline_cons. apply IHrest. by apply Hchild.
Qed.

Lemma processOutline_Forall (Q : TocItem → Prop) :
  (∀ item ref p level, getPageIndex pdfDoc ref = Some p → p ≠ -1 →
     destRef (destOf pdfDoc item) = Some ref →
     Q (mkTocItem (item_title item) p level)) →
  ∀ items level toc, Forall Q toc → Forall Q (processOutline pdfDoc items level toc).
Proof.
  intros Hpush items level. induction items as [|item rest IH]; intros toc Htoc; [done|].
  rewrite processOutline_cons. apply IH. by apply processItem_Forall.
Qed.

(** The accumulator apart, the walk of a list is the walks of its items
    one after the other. *)
Lemma processOutline_concat items level :
  processOutline pdfDoc items level [] =
  mjoin ((λ item, processItem pdfDoc level item []) <$> items).
Proof.
  induction items as [|item rest IH]; [done|].
  rewrite processOutline_cons, processOutline_acc, IH. done.
Qed.

Lemma processOutline_elem child items level toc e :
  child ∈ items → e ∈ processItem pdfDoc level child [] →
  e ∈ processOutline pdfDoc items level toc.
Proof.
  intros Hin He. rewrite processOutline_acc, processOutline_concat.
  apply elem_of_app. right. apply list_elem_of_join.
  exists (processItem pdfDoc level child []). split; [done|].
  by apply (list_elem_of_fmap_2 (λ item, processItem pdfDoc level item [])).
Qed.

(** Entries pushed during a walk at [level] sit at [level] or deeper. *)
Lemma processItem_levels item :
  ∀ level, Forall (λ e, (level ≤ toc_level e)%nat) (processItem pdfDoc level item []).
Proof.
  induction item as [t d u children IH] using OutlineItem_tree_ind.
  intros level. rewrite processItem_eq.
  destruct (lookupPage pdfDoc _) as [p|]; [|done]. cbn [item_items].
  rewrite processOutline_acc, processOutline_concat. apply Forall_app. split.
  - unfold pushEntry. case_bool_decide; [|done]. by apply Forall_singleton.
  - apply Forall_join, Forall_fmap.
    eapply Forall_impl; [exact IH|]. intros child Hchild. simpl.
    eapply Forall_impl; [apply (Hchild (S level))|]. simpl. lia.
Qed.

End OutlineWalk.

Section OutlineFates.
Import DocumentUtils.
Context (pdfDoc : PdfDocument).
Implicit Types (item child : OutlineItem) (toc : list TocItem) (level : nat).

Lemma lookupPage_unresolved item :
  unresolved pdfDoc item → lookupPage pdfDoc item = Some (-1).
Proof.
  unfold unresolved, lookupPage. destruct (destRef _) as [ref|].
  - by intros [-> | ->].
  - by intros ->.
Qed.

Lemma lookupPage_externalLink item :
  externalLink pdfDoc item → lookupPage pdfDoc item = None.
Proof. unfold externalLink, lookupPage. by intros [-> ->]. Qed.

Lemma lookupPage_resolvesTo item p :
  resolvesTo pdfDoc item p → lookupPage pdfDoc item = Some p ∧ p ≠ -1.
Proof. unfold resolvesTo, lookupPage. by intros (ref & -> & -> & Hp). Qed.

Lemma resolved_item_is_listed item p level :
  resolvesTo pdfDoc item p →
  mkTocItem (item_title item) p level ∈ processItem pdfDoc level item [].
Proof.
  intros [Hlook Hp]%lookupPage_resolvesTo.
  rewrite processItem_eq, Hlook, processOutline_acc.
  apply elem_of_app. left. unfold pushEntry.
  rewrite bool_decide_eq_true_2 by done. simpl. apply list_elem_of_here.
Qed.

End OutlineFates.

(** The claim of C7 fails for a link node: its chapter, which resolves to
    the first page, is not in the table of contents of the document. *)
Lemma link_node_hides_its_children :
  externalLink (samplePdf [linkNode]) linkNode
  ∧ chapterNode ∈ DocumentUtils.item_items linkNode
  ∧ resolvesTo (samplePdf [linkNode]) chapterNode 0
  ∧ (mkTocItem "Chapter 1" 0 1 ∉ DocumentUtils.extractToc (samplePdf [linkNode]))
  ∧ DocumentUtils.extractToc (samplePdf [linkNode]) = [].
Proof.
  split; [by vm_compute|]. split; [apply list_elem_of_here|].
  split; [exists (DocumentUtils.RefObj 5 0); by vm_compute|].
  split; [|reflexivity].
  change (DocumentUtils.extractToc (samplePdf [linkNode])) with (@nil TocItem).
  apply not_elem_of_nil.
Qed.

(** C7, amended - the outline walk.  A node whose destination does not
    resolve adds no entry of its own (what the walk adds lies deeper than
    the node), its children are walked one level down, and every child that
    resolves is listed at that level.  A node without a usable destination
    that carries a link is passed over together with everything below
    it. *)
Theorem outline_walk_skips
    (pdfDoc : DocumentUtils.PdfDocument) (item : DocumentUtils.OutlineItem)
    (level : nat) (toc : list TocItem) :
  (unresolved pdfDoc item →
     DocumentUtils.processItem pdfDoc level item toc
     = DocumentUtils.processOutline pdfDoc (DocumentUtils.item_items item) (S level) toc
     ∧ DocumentUtils.processItem pdfDoc level item toc
       = toc ++ DocumentUtils.processItem pdfDoc level item []
     ∧ Forall (λ e, (S level ≤ toc_level e)%nat)
         (DocumentUtils.processItem pdfDoc level item [])
     ∧ (∀ child p, child ∈ DocumentUtils.item_items item →
          resolvesTo pdfDoc child p →
          mkTocItem (DocumentUtils.item_title child) p (S level)
          ∈ DocumentUtils.processItem pdfDoc level item toc))
  ∧ (externalLink pdfDoc item →
     DocumentUtils.processItem pdfDoc level item toc = toc).
Proof.
  split.
  - intros Hlook%lookupPage_unresolved.
    assert (Hwalk : ∀ acc, DocumentUtils.processItem pdfDoc level item acc
              = DocumentUtils.processOutline pdfDoc (DocumentUtils.item_items item)
                  (S level) acc).
    { intros acc. rewrite processItem_eq, Hlook. unfold DocumentUtils.pushEntry.
      by rewrite bool_decide_eq_false_2 by (intros Hne; by apply Hne). }
    split; [apply Hwalk|]. split; [apply processItem_acc|]. split.
    + rewrite Hwalk, processOutline_concat. apply Forall_join, Forall_fmap.
      apply Forall_forall. intros child _. apply processItem_levels.
    + intros child p Hchild Hp. rewrite Hwalk.
      eapply processOutline_elem; [exact Hchild|].
      by apply resolved_item_is_listed.
  - intros Hlook%lookupPage_externalLink. by rewrite processItem_eq, Hlook.
Qed.

Lemma outline_walk_skips_witness :
  DocumentUtils.extractToc (samplePdf [lostNode]) = [mkTocItem "Chapter 1" 0 1]
  ∧ DocumentUtils.processItem (samplePdf [linkNode]) 0 linkNode [] = [].
Proof.
  split.
  - destruct (outline_walk_skips (samplePdf [lostNode]) lostNode 0 []) as [Hlost _].
    destruct Hlost as (Hwalk & _); [by vm_compute|].
    change (DocumentUtils.extractToc (samplePdf [lostNode]))
      with (DocumentUtils.processOutline (samplePdf [lostNode]) [lostNode] 0 []).
    rewrite processOutline_cons, Hwalk. reflexivity.
  - destruct (outline_walk_skips (samplePdf [linkNode]) linkNode 0 []) as [_ Hlink].
    apply Hlink. by vm_compute.
Defined.

(** ** The parsed book *)

Section ParsedBook.
Import DocumentUtils.

Lemma parsePdf_Ok window file b :
  parsePdf window file = Ok b →
  ∃ getDocument pdfDoc,
    pdfjsLib window = Some getDocument
    ∧ getDocument (file_data file) = Ok pdfDoc
    ∧ book_totalPages b = Z.of_nat (numPages pdfDoc)
    ∧ book_totalPages b = Z.of_nat (length (book_content b))
    ∧ book_toc b = extractToc pdfDoc.
Proof.
  unfold parsePdf. destruct (pdfjsLib window) as [getDocument|]; [|done].
  destruct (getDocument _) as [pdfDoc|] eqn:Hdoc; [|done].
  destruct (mapM _ _) as [texts|] eqn:Htexts; [|done].
  intros [= <-]. exists getDocument, pdfDoc. simpl.
  apply length_mapM in Htexts. rewrite length_seq in Htexts.
  rewrite length_fmap, <- Htexts. done.
Qed.




End ParsedBook.

(** C6 - a document without pages.  The PDF path has no fallback: a PDF
    with no page gives a book with no page and a page count of zero.  (The
    EPUB path has it, see [parseEpub_Ok].) *)
Theorem pdf_without_pages_has_no_fallback :
  DocumentUtils.parseFile (sampleWindow emptyPdf ∅) pdfFile =
  DocumentUtils.Ok
    (mkBook "book" pdf [] (PdfBuffer "%PDF-1.7") 0 "book.pdf" [])
  ∧ DocumentUtils.parseFile (sampleWindow emptyPdf ∅) epubFile =
    DocumentUtils.Ok
      (mkBook "book" epub ["No text content found."]
         (HtmlPages ["<p>No content found.</p>"]) 1 "book.epub" []).
Proof. split; by vm_compute. Qed.

Section OutlineEntries.
Import DocumentUtils.
Context (pdfDoc : PdfDocument).






End OutlineEntries.




(** * Further properties of the code *)

(** ** Numbers as text *)

Section NumberText.
Import JsNumber.

Lemma digit_pretty_N_char (d : N) :
  (d < 10)%N → digit (pretty_N_char d) = Some d.
Proof.
  intros Hd.
  assert (d = 0 ∨ d = 1 ∨ d = 2 ∨ d = 3 ∨ d = 4 ∨ d = 5 ∨ d = 6 ∨ d = 7
          ∨ d = 8 ∨ d = 9)%N as Hcases by lia.
  destruct_or!; subst; reflexivity.
Qed.

Lemma parseDigits_pretty_N_go (x : N) :
  ∀ s, (0 < x)%N → parseDigits None (pretty_N_go x s) = parseDigits (Some x) s.
Proof.
  induction (N.lt_wf_0 x) as [x _ IH]. intros s Hx.
  rewrite pretty_N_go_step by done.
  assert (Hd : (x `mod` 10 < 10)%N) by (apply N.mod_lt; lia).
  destruct (decide (x `div` 10 = 0)%N) as [Hzero|Hpos].
  - rewrite Hzero, pretty_N_go_0. simpl. rewrite digit_pretty_N_char by done.
    simpl. f_equal. f_equal.
    pose proof (N.div_mod x 10 ltac:(lia)). lia.
  - rewrite IH; [|apply N.div_lt; lia|by apply N.neq_0_lt_0].
    simpl. rewrite digit_pretty_N_char by done. simpl. f_equal. f_equal.
    pose proof (N.div_mod x 10 ltac:(lia)). lia.
Qed.

Lemma pretty_N_go_head (x : N) :
  ∀ s, (0 < x)%N →
  ∃ d rest, (d < 10)%N ∧ pretty_N_go x s = String (pretty_N_char d) rest.
Proof.
  induction (N.lt_wf_0 x) as [x _ IH]. intros s Hx.
  rewrite pretty_N_go_step by done.
  destruct (decide (x `div` 10 = 0)%N) as [Hzero|Hpos].
  - rewrite Hzero, pretty_N_go_0. exists (x `mod` 10)%N, s.
    split; [apply N.mod_lt; lia|done].
  - apply IH; [apply N.div_lt; lia|by apply N.neq_0_lt_0].
Qed.

Lemma parseInt_digits_first (d : N) rest :
  (d < 10)%N →
  parseInt (String (pretty_N_char d) rest)
  = Z.of_N <$> parseDigits None (String (pretty_N_char d) rest).
Proof.
  intros Hd.
  assert (d = 0 ∨ d = 1 ∨ d = 2 ∨ d = 3 ∨ d = 4 ∨ d = 5 ∨ d = 6 ∨ d = 7
          ∨ d = 8 ∨ d = 9)%N as Hcases by lia.
  destruct_or!; subst; reflexivity.
Qed.

Lemma parseInt_pretty_pos (p : positive) :
  parseInt (pretty (Npos p)) = Some (Zpos p)
  ∧ parseDigits None (pretty (Npos p)) = Some (Npos p).
Proof.
  assert (Hgo : pretty (Npos p) = pretty_N_go (Npos p) EmptyString) by done.
  assert (Hdigits : parseDigits None (pretty (Npos p)) = Some (Npos p)).
  { rewrite Hgo, parseDigits_pretty_N_go by lia. done. }
  split; [|done].
  destruct (pretty_N_go_head (Npos p) EmptyString) as (d & rest & Hd & Hhead); [lia|].
  rewrite Hgo, Hhead, parseInt_digits_first by done.
  rewrite <- Hhead, <- Hgo, Hdigits. done.
Qed.

End NumberText.

(** A number written by [toString] is read back by [parseInt] unchanged. *)
Lemma parseInt_toString (z : Z) :
  JsNumber.parseInt (JsNumber.toString z) = Some z.
Proof.
  destruct z as [|p|p].
  - reflexivity.
  - apply parseInt_pretty_pos.
  - unfold JsNumber.toString, pretty, pretty_Z.
    change (JsNumber.parseInt ("-" +:+ pretty p))
      with ((λ n, - Z.of_N n) <$> JsNumber.parseDigits None (pretty (Npos p))).
    by rewrite (proj2 (parseInt_pretty_pos p)).
Qed.

(** ** Moving between pages *)

Section ReaderFacts.
Import Reader.
Implicit Types (st : State).

Lemma navigateToPage_range st page :
  0 ≤ page < totalPages st → pageInRange (navigateToPage page st).
Proof. done. Qed.

Lemma handlePrev_range st : pageInRange st → pageInRange (handlePrev st).
Proof.
  intros [Hlo Hhi]. unfold handlePrev. case_bool_decide; [|done].
  apply navigateToPage_range. lia.
Qed.

Lemma handleNext_range st : pageInRange st → pageInRange (handleNext st).
Proof.
  intros [Hlo Hhi]. unfold handleNext. case_bool_decide; [|done].
  apply navigateToPage_range. lia.
Qed.

Lemma handlePageSubmit_range st : pageInRange st → pageInRange (handlePageSubmit st).
Proof.
  intros Hst. unfold handlePageSubmit.
  destruct (JsNumber.parseInt _) as [pageNum|]; [|done].
  destruct (bool_decide (1 ≤ pageNum)) eqn:H1; [|done].
  destruct (bool_decide (pageNum ≤ totalPages st)) eqn:H2; [|done].
  apply bool_decide_eq_true in H1, H2. apply navigateToPage_range. lia.
Qed.

Lemma handleWheel_cases el deltaY now st :
  handleWheel el deltaY now st = st
  ∨ (1200 < now - lastNavigationTime st
     ∧ ((currentPage st < totalPages st - 1
         ∧ handleWheel el deltaY now st
           = navigateToPage (currentPage st + 1) (stamp now (touchStartY st) st))
        ∨ (0 < currentPage st
           ∧ handleWheel el deltaY now st
             = navigateToPage (currentPage st - 1) (stamp now (touchStartY st) st)))).
Proof.
  unfold handleWheel. destruct el as [el|]; [|by left].
  case_bool_decide as Htime; [by left|].
  destruct (isAtBottom el && PrimFloat.ltb 50 deltaY) eqn:Hdown; simpl.
  - case_bool_decide as Hnext.
    + right. split; [lia|]. left. done.
    + destruct (isAtTop el && PrimFloat.ltb deltaY (-50)); simpl; [|by left].
      case_bool_decide; [|by left]. right. split; [lia|]. by right.
  - destruct (isAtTop el && PrimFloat.ltb deltaY (-50)); simpl; [|by left].
    case_bool_decide; [|by left]. right. split; [lia|]. by right.
Qed.

Lemma handleTouchMove_cases el currentY now st :
  handleTouchMove el currentY now st = st
  ∨ (1200 < now - lastNavigationTime st
     ∧ ((currentPage st < totalPages st - 1
         ∧ handleTouchMove el currentY now st
           = navigateToPage (currentPage st + 1) (stamp now None st))
        ∨ (0 < currentPage st
           ∧ handleTouchMove el currentY now st
             = navigateToPage (currentPage st - 1) (stamp now None st)))).
Proof.
  unfold handleTouchMove. destruct el as [el|]; [|by left].
  destruct (touchStartY st) as [startY|]; [|by left].
  case_bool_decide as Htime; [by left|].
  destruct (isAtBottom el && PrimFloat.ltb 100 _) eqn:Hdown; simpl.
  - case_bool_decide as Hnext.
    + right. split; [lia|]. left. done.
    + destruct (isAtTop el && PrimFloat.ltb _ (-100)); simpl; [|by left].
      case_bool_decide; [|by left]. right. split; [lia|]. by right.
  - destruct (isAtTop el && PrimFloat.ltb _ (-100)); simpl; [|by left].
    case_bool_decide; [|by left]. right. split; [lia|]. by right.
Qed.

End ReaderFacts.

(** X1 - the reader never leaves the book.  From a page of the book, every
    control (the two buttons, the keys, the page form, the wheel, a swipe)
    leads to a page of the book, and so does a click on an entry of the
    table of contents that points at a page of the book; the page count is
    never touched. *)
Theorem reader_stays_in_book (st : Reader.State) (ev : Reader.Event) :
  pageInRange st →
  (∀ page, ev = Reader.TocClick page → 0 ≤ page < Reader.totalPages st) →
  pageInRange (Reader.step st ev)
  ∧ Reader.totalPages (Reader.step st ev) = Reader.totalPages st.
Proof.
  intros Hst Htoc. pose proof Hst as [Hlo Hhi].
  destruct ev as [| |value| |page|focused key|el deltaY now|clientY|el currentY now|];
    simpl.
  - split; [by apply handlePrev_range|].
    unfold Reader.handlePrev. by case_bool_decide.
  - split; [by apply handleNext_range|].
    unfold Reader.handleNext. by case_bool_decide.
  - done.
  - split; [by apply handlePageSubmit_range|].
    unfold Reader.handlePageSubmit.
    destruct (JsNumber.parseInt _); [|done]. by destruct (_ && _).
  - split; [|done]. by apply (Htoc page).
  - unfold Reader.handleKeyDown. destruct focused; [done|].
    destruct (_ || _).
    { split; [by apply handleNext_range|].
      unfold Reader.handleNext. by case_bool_decide. }
    case_bool_decide; [|done].
    split; [by apply handlePrev_range|].
    unfold Reader.handlePrev. by case_bool_decide.
  - destruct (handleWheel_cases el deltaY now st)
      as [->|(_ & [[Hn ->]|[Hp ->]])]; [done|..];
      (split; [apply navigateToPage_range; simpl; lia|done]).
  - done.
  - destruct (handleTouchMove_cases el currentY now st)
      as [->|(_ & [[Hn ->]|[Hp ->]])]; [done|..];
      (split; [apply navigateToPage_range; simpl; lia|done]).
  - done.
Qed.

Lemma reader_stays_in_book_witness :
  pageInRange (Reader.step (Reader.mount demoBook 0) Reader.Next)
  ∧ pageInRange (Reader.step (Reader.mount demoBook 1) Reader.Next).
Proof.
  split.
  - apply (reader_stays_in_book (Reader.mount demoBook 0) Reader.Next).
    + by vm_compute.
    + intros page Hev. discriminate Hev.
  - apply (reader_stays_in_book (Reader.mount demoBook 1) Reader.Next).
    + by vm_compute.
    + intros page Hev. discriminate Hev.
Defined.

(** X2 - the page form.  After the form is submitted the page field always
    denotes the page shown: an entry that reads as a page number of the book
    moves there, any other entry (not a number, zero, beyond the end) moves
    nowhere and is replaced by the number of the page shown. *)
Theorem page_form_denotes_page_shown (st : Reader.State) :
  JsNumber.parseInt (Reader.pageInput (Reader.handlePageSubmit st))
  = Some (Reader.currentPage (Reader.handlePageSubmit st) + 1)
  ∧ (∀ n, JsNumber.parseInt (Reader.pageInput st) = Some n →
       1 ≤ n ≤ Reader.totalPages st →
       Reader.currentPage (Reader.handlePageSubmit st) = n - 1)
  ∧ ((∀ n, JsNumber.parseInt (Reader.pageInput st) = Some n →
         ¬ 1 ≤ n ≤ Reader.totalPages st) →
     Reader.handlePageSubmit st
     = Reader.handlePageInputChange
         (JsNumber.toString (Reader.currentPage st + 1)) st).
Proof.
  unfold Reader.handlePageSubmit.
  destruct (JsNumber.parseInt (Reader.pageInput st)) as [pageNum|] eqn:Hparse.
  - destruct (bool_decide (1 ≤ pageNum)) eqn:H1;
      destruct (bool_decide (pageNum ≤ Reader.totalPages st)) eqn:H2; simpl;
      try apply bool_decide_eq_true in H1; try apply bool_decide_eq_true in H2;
      try apply bool_decide_eq_false in H1; try apply bool_decide_eq_false in H2.
    + split; [|split].
      * case_decide as Hsame.
        -- rewrite Hparse. f_equal. lia.
        -- rewrite parseInt_toString. done.
      * by intros n [= <-] _.
      * intros Hbad. destruct (Hbad pageNum eq_refl). lia.
    + split; [apply parseInt_toString|]. split; [|done].
      intros n [= <-] ?. lia.
    + split; [apply parseInt_toString|]. split; [|done].
      intros n [= <-] ?. lia.
    + split; [apply parseInt_toString|]. split; [|done].
      intros n [= <-] ?. lia.
  - split; [apply parseInt_toString|]. split; [done|done].
Qed.



Lemma page_form_denotes_page_shown_witness :
  Reader.currentPage
    (Reader.handlePageSubmit (Reader.handlePageInputChange "2" (Reader.mount demoBook 0)))
  = 1.
Proof.
  destruct (page_form_denotes_page_shown
              (Reader.handlePageInputChange "2" (Reader.mount demoBook 0)))
    as (_ & Hvalid & _).
  apply (Hvalid 2); [reflexivity|]. by vm_compute.
Defined.

(** ** The service *)

Section ServiceFacts.
Implicit Types (pages : list string) (cs : list (option string)).

Lemma join_snoc sep (l : list string) x :
  l ≠ [] → Js.join sep (l ++ [x]) = Js.join sep l +:+ sep +:+ x.
Proof.
  induction l as [|y l IH]; [done|]. intros _.
  destruct l as [|z l]; [done|].
  change (y +:+ sep +:+ Js.join sep ((z :: l) ++ [x])
          = (y +:+ sep +:+ Js.join sep (z :: l)) +:+ sep +:+ x).
  rewrite IH by done. by rewrite !string_app_assoc.
Qed.

Lemma join_extends sep (l more : list string) :
  ∃ tail, Js.join sep (l ++ more) = Js.join sep l +:+ tail.
Proof.
  revert l. induction more as [|x more IH]; intros l.
  - exists EmptyString. by rewrite app_nil_r, string_app_nil_r.
  - destruct (IH (l ++ [x])) as [tail Htail].
    rewrite <- app_assoc in Htail. simpl in Htail. rewrite Htail.
    destruct l as [|y l].
    + exists (x +:+ tail). done.
    + rewrite join_snoc by done. exists (sep +:+ x +:+ tail).
      by rewrite !string_app_assoc.
Qed.

Lemma imap_take {A B} (f : nat → A → B) (l : list A) (k : nat) :
  imap f (take k l) = take k (imap f l).
Proof.
  apply list_eq. intros i. rewrite list_lookup_imap.
  destruct (decide (i < k)%nat).
  - by rewrite !lookup_take_lt, list_lookup_imap by done.
  - by rewrite !lookup_take_ge by lia.
Qed.

Lemma runningTexts_length sofar (texts : list string) :
  length (runningTexts sofar texts) = length texts.
Proof.
  revert sofar. induction texts as [|t texts IH]; intros sofar; simpl; [done|].
  by rewrite IH.
Qed.

Lemma runningTexts_step sofar (texts : list string) i d1 d2 :
  runningTexts sofar texts !! i = Some d1 →
  runningTexts sofar texts !! S i = Some d2 →
  ∃ t, texts !! S i = Some t ∧ d2 = d1 +:+ t.
Proof.
  revert sofar i. induction texts as [|t texts IH]; intros sofar i; [done|].
  destruct i as [|i]; simpl.
  - intros [= <-]. destruct texts as [|t2 texts]; [done|]. simpl.
    intros [= <-]. by exists t2.
  - apply IH.
Qed.

End ServiceFacts.

(** X4 - reading on only adds context.  For page numbers [0 ≤ cp1 ≤ cp2]
    the context for the later page starts with the whole context for the
    earlier page: nothing once shown to the assistant is changed or
    withdrawn by turning pages forward. *)
Theorem context_only_grows (pages : list string) (cp1 cp2 : Z) :
  0 ≤ cp1 ≤ cp2 →
  ∃ more, contextText pages cp2 = contextText pages cp1 +:+ more.
Proof.
  intros [Hlo Hle]. unfold contextText.
  rewrite !pagesRead_take by lia. rewrite !imap_take.
  set (blocks := imap pageBlock pages).
  replace (S (Z.to_nat cp2)) with (S (Z.to_nat cp1) + (Z.to_nat cp2 - Z.to_nat cp1))%nat
    by lia.
  rewrite <- take_take_drop. apply join_extends.
Qed.

Lemma context_only_grows_witness :
  ∃ more, contextText ["A"; "B"; "C"]%string 2
          = contextText ["A"; "B"; "C"]%string 0 +:+ more.
Proof. apply context_only_grows. lia. Defined.

(** X5 - how a call of the service ends.  Without a key it is rejected
    before anything else happens.  With a key and a history that is not
    empty it is never rejected: it returns the texts of all chunks joined
    when the stream completes and the fallback text when the stream fails,
    and in both cases the callback has been run on the deliveries made up
    to then. *)
Theorem service_call_outcome
    {S} (onChunk : string → S → S) (apiKey : option string)
    (provider : GenerateRequest → ResponseStream)
    (history : list Message) (pages : list string) (cp : Z) (st : S) :
  (Js.truthy apiKey = false →
     generateAssistantResponse onChunk apiKey provider history pages cp st
     = (Rejected "API Key is missing", st))
  ∧ (Js.truthy apiKey = true → history ≠ [] →
     ∃ req, buildRequest history pages cp = Some req
       ∧ generateAssistantResponse onChunk apiKey provider history pages cp st
         = (Resolved (match ending (provider req) with
                      | Completed => wholeText (chunkTexts (chunks (provider req)))
                      | Errored => fallbackText
                      end),
            foldl (λ s t, onChunk t s) st (deliveries (chunks (provider req))))).
Proof.
  unfold generateAssistantResponse, getClient. split.
  - by intros ->.
  - intros Hkey Hhistory. destruct apiKey as [[|a key]|]; try discriminate Hkey.
    cbn [Js.truthy].
    destruct (buildRequest history pages cp) as [req|] eqn:Hreq.
    + exists req. split; [done|].
      pose proof (streamLoop_text onChunk (chunks (provider req)) EmptyString st) as Htext.
      pose proof (streamLoop_deliveries onChunk (chunks (provider req)) EmptyString st)
        as Hloop.
      destruct (streamLoop onChunk _ _) as [text st'].
      injection Hloop as _ ->. simpl in Htext. subst text.
      by destruct (ending (provider req)).
    + unfold buildRequest in Hreq. destruct (last history) eqn:Hlast; [done|].
      by apply last_None in Hlast.
Qed.

Lemma service_call_outcome_witness :
  generateAssistantResponse (λ t (log : list string), log ++ [t]) (Some "key"%string)
    (λ _, mkStream [Some "Call me "; None; Some "Ishmael."]%string Completed)
    [newTurn] ["page"]%string 0 []
  = (Resolved "Call me Ishmael.", ["Call me "; "Call me Ishmael."]%string).
Proof.
  destruct (service_call_outcome (λ t (log : list string), log ++ [t])
              (Some "key"%string)
              (λ _, mkStream [Some "Call me "; None; Some "Ishmael."]%string Completed)
              [newTurn] ["page"]%string 0 []) as [_ Hrun].
  destruct Hrun as (req & _ & ->); [reflexivity|done|reflexivity].
Defined.

(** X6 - what the callback is given.  The service calls back once for
    every chunk that carries a text, each time with the text of the call
    before extended by that chunk's text; so every delivery starts with the
    one before it, and the last one is the text the loop ends with. *)
Theorem deliveries_are_running_texts (cs : list (option string)) :
  deliveries cs = runningTexts EmptyString (chunkTexts cs)
  ∧ length (deliveries cs) = length (chunkTexts cs)
  ∧ (∀ i d1 d2, deliveries cs !! i = Some d1 → deliveries cs !! S i = Some d2 →
       ∃ t, chunkTexts cs !! S i = Some t ∧ t ≠ EmptyString ∧ d2 = d1 +:+ t)
  ∧ default EmptyString (last (deliveries cs)) = wholeText (chunkTexts cs).
Proof.
  assert (Hrun : deliveries cs = runningTexts EmptyString (chunkTexts cs))
    by apply recorder_running.
  assert (Hnonempty : Forall (λ t, t ≠ EmptyString) (chunkTexts cs)).
  { apply Forall_forall. by intros t [Ht _]%list_elem_of_filter. }
  split; [done|]. split; [|split].
  - rewrite Hrun. apply runningTexts_length.
  - rewrite Hrun. intros i d1 d2 Hd1 Hd2.
    destruct (runningTexts_step _ _ _ _ _ Hd1 Hd2) as (t & Ht & ->).
    exists t. split; [done|]. split; [|done].
    eapply Forall_forall in Hnonempty; [exact Hnonempty|].
    by eapply list_elem_of_lookup_2.
  - pose proof (streamLoop_deliveries (λ t (log : list string), log ++ [t]) cs
                  EmptyString []) as Hloop.
    pose proof (streamLoop_text (λ t (log : list string), log ++ [t]) cs
                  EmptyString []) as Htext.
    rewrite Hloop in Htext. simpl in Htext. exact Htext.
Qed.

(** X7 - the history sent along.  Whatever the history, the window holds
    at most six turns, none of them a system turn, and is the tail end of
    the turns that are not system turns, in their order; six or fewer such
    turns are all sent.  Every line of it is labelled User or Assistant. *)
Theorem history_window_shape (history : list Message) :
  (length (historyWindow history) ≤ 6)%nat
  ∧ Forall (λ m, msg_role m ≠ system) (historyWindow history)
  ∧ historyWindow history `suffix_of` filter (λ m, msg_role m ≠ system) history
  ∧ ((length (filter (λ m, msg_role m ≠ system) history) ≤ 6)%nat →
     historyWindow history = filter (λ m, msg_role m ≠ system) history)
  ∧ Forall (λ m, renderTurn m = "User: " +:+ msg_content m
                 ∨ renderTurn m = "Assistant: " +:+ msg_content m)
      (historyWindow history).
Proof.
  split; [apply historyWindow_length|]. split; [apply historyWindow_no_system|].
  split; [apply historyWindow_suffix|]. split.
  - intros Hfew. rewrite historyWindow_drop.
    replace (_ - 6)%nat with 0%nat by lia. done.
  - apply Forall_forall. intros m _. unfold renderTurn, roleLabel.
    destruct (decide (msg_role m = user)); [by left|by right].
Qed.

(** ** The parser, further *)

Section EpubFacts.
Import DocumentUtils.
Implicit Types (files : gmap string XhtmlMember) (acc : EpubAcc).

Lemma chapterTitle_nonempty fileName member pageIndex :
  chapterTitle fileName member pageIndex ≠ EmptyString.
Proof.
  unfold chapterTitle.
  destruct (Js.trim <$> title_textContent member) as [[|a t]|]; simpl; try done.
  - destruct (stripExtension _) as [|a t]; simpl; done.
  - destruct (stripExtension _) as [|a t]; simpl; done.
Qed.

Lemma addMember_shape files done name member acc acc' :
  files !! name = Some member →
  addMember name member acc = Some acc' →
  epubShape files done acc → epubShape files (done ++ [name]) acc'.
Proof.
  intros Hmember Hadd (Htext & Hlen & Hpages & Htoc).
  unfold addMember in Hadd. destruct (body member) as [b|] eqn:Hbody; [|done].
  simpl in Hadd.
  assert (Hmakes : makesPage files name
            = bool_decide (0 < String.length (Js.trim (default EmptyString (textContent b))))%nat
              || bool_decide (0 < images_length member)%nat).
  { unfold makesPage. by rewrite Hmember, Hbody. }
  unfold epubShape. rewrite filter_app.
  destruct (_ || _) eqn:Hpage; injection Hadd as <-.
  - rewrite (filter_cons_True _ name) by done. rewrite filter_nil, fmap_app.
    repeat split; simpl.
    + rewrite Htext. f_equal. unfold pageTextOf. by rewrite Hmember; simpl; rewrite Hbody.
    + rewrite !length_app, Hlen. done.
    + rewrite fmap_app, Hpages, length_app. simpl.
      rewrite Nat.add_1_r, seq_S, fmap_app. done.
    + apply Forall_app. split; [done|]. apply Forall_singleton. simpl.
      split; [done|]. apply chapterTitle_nonempty.
  - rewrite (filter_cons_False _ name) by (rewrite Hmakes; done).
    rewrite filter_nil, app_nil_r. done.
Qed.

Lemma epubLoop_shape_from files (names done : list string) start acc :
  (∀ n, n ∈ names → is_Some (files !! n)) →
  foldl (λ (o : option EpubAcc) fileName,
           a ← o;
           match files !! fileName with
           | Some member => addMember fileName member a
           | None => Some a
           end) (Some start) names = Some acc →
  epubShape files done start → epubShape files (done ++ names) acc.
Proof.
  revert done start. induction names as [|name names IH]; intros done start Hall Hloop Hstart.
  - simpl in Hloop. injection Hloop as <-. by rewrite app_nil_r.
  - simpl in Hloop. destruct (Hall name) as [member Hmember]; [apply list_elem_of_here|].
    rewrite Hmember in Hloop.
    destruct (addMember name member start) as [next|] eqn:Hadd.
    + replace (done ++ name :: names) with ((done ++ [name]) ++ names)
        by (by rewrite <- app_assoc).
      eapply IH; [|exact Hloop|].
      * intros n Hn. apply Hall. by apply list_elem_of_further.
      * by eapply addMember_shape.
    + exfalso. clear -Hloop. induction names as [|n names IH]; [done|]. by apply IH.
Qed.

Lemma htmlNames_elem files name :
  name ∈ htmlNames files ↔ isHtmlName name = true ∧ is_Some (files !! name).
Proof.
  unfold htmlNames. rewrite merge_sort_Permutation, list_elem_of_filter.
  rewrite list_elem_of_fmap. split.
  - intros [Hhtml ([n m] & -> & Hin%elem_of_map_to_list)]. split; [done|by eexists].
  - intros [Hhtml [m Hm]]. split; [done|]. exists (name, m). split; [done|].
    by apply elem_of_map_to_list.
Qed.

End EpubFacts.

(** X8 - what an EPUB becomes.  The pages of the book are the normalised
    texts of the members with an HTML name that have text or an image, in
    the sorted order of their names (the placeholder page when there is
    none); there are as many markup pages as text pages and [totalPages]
    counts them; the table of contents has one entry per page, pointing at
    pages 0, 1, 2, ... in turn, each at level 0 with a title that is not
    empty. *)
Theorem epub_book_shape
    (window : DocumentUtils.Window) (file : DocumentUtils.File) (b : Book) :
  DocumentUtils.parseEpub window file = DocumentUtils.Ok b →
  ∃ loadAsync files html,
    DocumentUtils.JSZip window = Some loadAsync
    ∧ loadAsync (DocumentUtils.file_data file) = DocumentUtils.Ok files
    ∧ book_content b
      = (let texts := pageTextOf files
                      <$> filter (λ n, makesPage files n = true)
                            (DocumentUtils.htmlNames files) in
         if bool_decide (0 < length texts)%nat then texts
         else ["No text content found."%string])
    ∧ book_renderData b = HtmlPages html
    ∧ length html = length (book_content b)
    ∧ book_totalPages b = Z.of_nat (length (book_content b))
    ∧ (book_toc b = []
       ∨ toc_page <$> book_toc b = Z.of_nat <$> seq 0 (length (book_content b)))
    ∧ Forall (λ e, toc_level e = 0%nat ∧ toc_title e ≠ EmptyString) (book_toc b).
Proof.
  unfold DocumentUtils.parseEpub.
  destruct (DocumentUtils.JSZip window) as [loadAsync|]; [|done].
  destruct (loadAsync _) as [files|] eqn:Hload; [|done].
  destruct (DocumentUtils.epubLoop _ _) as [acc|] eqn:Hloop; [|done].
  intros [= <-].
  destruct (epubLoop_shape_from files (DocumentUtils.htmlNames files) []
              (DocumentUtils.mkEpubAcc [] [] []) acc)
    as (Htext & Hlen & Hpages & Htoc).
  { intros n Hn. by apply htmlNames_elem in Hn as [_ ?]. }
  { exact Hloop. }
  { by repeat split. }
  rewrite app_nil_l in Htext.
  exists loadAsync, files.
  exists (if bool_decide (0 < length (DocumentUtils.htmlPages acc))%nat
          then DocumentUtils.htmlPages acc else ["<p>No content found.</p>"%string]).
  cbv zeta. cbn [book_content book_renderData book_totalPages book_toc].
  rewrite <- Htext, Hlen. split; [done|]. split; [done|]. split; [done|]. split; [done|].
  case_bool_decide as Hsome.
  - repeat split; try done. by right.
  - repeat split; try done. left.
    assert (Hzero : length (DocumentUtils.epub_toc acc) = 0%nat).
    { rewrite <- (length_fmap toc_page), Hpages, length_fmap, length_seq. lia. }
    by apply length_zero_iff_nil.
Qed.

Lemma epub_book_shape_witness :
  book_content parsedEpubBook = ["First chapter"; "Second chapter"]%string
  ∧ (toc_page <$> book_toc parsedEpubBook) = [0; 1].
Proof.
  destruct (epub_book_shape (sampleWindow emptyPdf sampleArchive) epubFile parsedEpubBook)
    as (loadAsync & files & html & _ & _ & _ & _ & _ & _ & Hpages & _).
  - by vm_compute.
  - split; [reflexivity|]. destruct Hpages as [Hnil| ->]; [discriminate Hnil|reflexivity].
Defined.

(** X9 - the order of the pages of an EPUB.  The member names gone
    through are exactly the names of the archive that end in [.html],
    [.xhtml] or [.htm], each once, in ascending order. *)
Theorem html_names_sorted_once (files : gmap string DocumentUtils.XhtmlMember) :
  StronglySorted (≤)%string (DocumentUtils.htmlNames files)
  ∧ NoDup (DocumentUtils.htmlNames files)
  ∧ (∀ name, name ∈ DocumentUtils.htmlNames files
             ↔ DocumentUtils.isHtmlName name = true ∧ is_Some (files !! name)).
Proof.
  split; [apply StronglySorted_merge_sort; apply _|]. split; [|apply htmlNames_elem].
  unfold DocumentUtils.htmlNames. rewrite merge_sort_Permutation.
  apply NoDup_filter, NoDup_fst_map_to_list.
Qed.

Section EpubFailure.
Import DocumentUtils.

Lemma epubLoop_stays_failed (files : gmap string XhtmlMember) names :
  foldl (λ (o : option EpubAcc) fileName,
           a ← o;
           match files !! fileName with
           | Some member => addMember fileName member a
           | None => Some a
           end) None names = None.
Proof. induction names as [|n names IH]; [done|]. apply IH. Qed.

Lemma epubLoop_fails (files : gmap string XhtmlMember) names name member :
  name ∈ names → files !! name = Some member → body member = None →
  epubLoop files names = None.
Proof.
  intros Hin Hmember Hbody. unfold epubLoop. generalize (mkEpubAcc [] [] []).
  induction names as [|other names IH]; intros start.
  - by apply elem_of_nil in Hin.
  - simpl. apply elem_of_cons in Hin as [<-|Hin].
    + rewrite Hmember. unfold addMember. rewrite Hbody. simpl.
      apply epubLoop_stays_failed.
    + destruct (match files !! other with
                | Some m => addMember other m start
                | None => Some start
                end) as [next|]; [by apply IH|apply epubLoop_stays_failed].
Qed.

End EpubFailure.

(** X10 - a member that cannot be read.  When a member with an HTML name
    has no body after parsing, the whole EPUB is refused; no book is made
    of the members that could be read. *)
Theorem epub_member_without_body_fails
    (window : DocumentUtils.Window) (file : DocumentUtils.File)
    loadAsync (files : gmap string DocumentUtils.XhtmlMember) name member :
  DocumentUtils.JSZip window = Some loadAsync →
  loadAsync (DocumentUtils.file_data file) = DocumentUtils.Ok files →
  DocumentUtils.isHtmlName name = true →
  files !! name = Some member →
  DocumentUtils.body member = None →
  DocumentUtils.parseEpub window file = DocumentUtils.Err "TypeError".
Proof.
  intros Hzip Hload Hhtml Hmember Hbody. unfold DocumentUtils.parseEpub.
  rewrite Hzip, Hload.
  rewrite (epubLoop_fails files _ name member); [done| |done|done].
  apply htmlNames_elem. split; [done|by eexists].
Qed.

Lemma epub_member_without_body_fails_witness :
  DocumentUtils.parseEpub
    (sampleWindow emptyPdf
       (<["OEBPS/broken.xhtml"%string := DocumentUtils.mkMember 0 None None]> sampleArchive))
    epubFile
  = DocumentUtils.Err "TypeError".
Proof.
  eapply (epub_member_without_body_fails _ epubFile _ _ "OEBPS/broken.xhtml"%string
            (DocumentUtils.mkMember 0 None None)).
  - reflexivity.
  - reflexivity.
  - reflexivity.
  - by vm_compute.
  - reflexivity.
Defined.

(** X11 - what a PDF becomes.  The book has one page per page of the
    document, page [i] (from 0) holding the text items of the document's
    page [i + 1] joined by spaces and normalised; every page was fetched;
    the file's bytes are kept as they are for rendering and the file name
    is kept. *)
Theorem pdf_book_pages
    (window : DocumentUtils.Window) (file : DocumentUtils.File) (b : Book) :
  DocumentUtils.parsePdf window file = DocumentUtils.Ok b →
  ∃ getDocument pdfDoc,
    DocumentUtils.pdfjsLib window = Some getDocument
    ∧ getDocument (DocumentUtils.file_data file) = DocumentUtils.Ok pdfDoc
    ∧ length (book_content b) = DocumentUtils.numPages pdfDoc
    ∧ book_totalPages b = Z.of_nat (DocumentUtils.numPages pdfDoc)
    ∧ book_renderData b = PdfBuffer (DocumentUtils.file_data file)
    ∧ book_fileName b = DocumentUtils.file_name file
    ∧ (∀ i, (i < DocumentUtils.numPages pdfDoc)%nat →
         ∃ items, DocumentUtils.getPageText pdfDoc (S i) = Some items
                  ∧ book_content b !! i
                    = Some (Js.normalizeText (Js.join " " items))).
Proof.
  unfold DocumentUtils.parsePdf.
  destruct (DocumentUtils.pdfjsLib window) as [getDocument|]; [|done].
  destruct (getDocument _) as [pdfDoc|] eqn:Hdoc; [|done].
  destruct (mapM _ _) as [texts|] eqn:Htexts; [|done].
  intros [= <-]. exists getDocument, pdfDoc. simpl.
  pose proof (length_mapM _ _ _ Htexts) as Hlen. rewrite length_seq in Hlen.
  rewrite length_fmap, <- Hlen. repeat split; try done.
  intros i Hi. apply mapM_Some_1 in Htexts.
  destruct (Forall2_lookup_l _ _ _ i (1 + i)%nat Htexts) as (items & Hitems & Hget).
  { by apply lookup_seq_lt. }
  exists items. split; [done|].
  rewrite list_lookup_fmap, Hitems. done.
Qed.

Lemma pdf_book_pages_witness :
  length (book_content parsedPdfBook) = 3%nat
  ∧ book_content parsedPdfBook !! 2%nat = Some "page 3"%string.
Proof.
  destruct (pdf_book_pages (sampleWindow (samplePdf [linkNode; lostNode]) sampleArchive)
              pdfFile parsedPdfBook) as (getDocument & pdfDoc & Hlib & Hdoc & _).
  - by vm_compute.
  - split; reflexivity.
Defined.

Section OutlineOrder.
Import DocumentUtils.
Context (pdfDoc : PdfDocument).

Lemma outlineNodes_eq level t d u children :
  outlineNodes level (mkOutlineItem t d u children)
  = (t, level) :: mjoin (outlineNodes (S level) <$> children).
Proof.
  cbn [outlineNodes]. f_equal.
  induction children as [|child rest IH]; [done|]. simpl. by rewrite IH.
Qed.

Lemma processItem_sublist item :
  ∀ level, entryKey <$> processItem pdfDoc level item []
           `sublist_of` outlineNodes level item.
Proof.
  induction item as [t d u children IH] using OutlineItem_tree_ind.
  intros level. rewrite processItem_eq, outlineNodes_eq.
  destruct (lookupPage pdfDoc _) as [p|]; [|apply sublist_nil_l].
  cbn [item_items]. rewrite processOutline_acc, processOutline_concat, fmap_app.
  apply (sublist_app _ [(t, level)]).
  - unfold pushEntry. case_bool_decide; [done|apply sublist_nil_l].
  - clear p. induction IH as [|child rest Hchild _ IHrest]; [done|].
    simpl. rewrite fmap_app. by apply sublist_app.
Qed.

End OutlineOrder.

(** X12 - the order of a PDF's table of contents.  Its entries, read as
    title and level, are taken from the nodes of the outline in document
    order (a node before its children, children one level below their
    parent, top-level nodes at level 0): entries are left out, never added,
    moved or put at another level. *)
Theorem pdf_toc_follows_outline (pdfDoc : DocumentUtils.PdfDocument) :
  entryKey <$> DocumentUtils.extractToc pdfDoc
  `sublist_of`
  match DocumentUtils.getOutline pdfDoc with
  | Some outline => mjoin (outlineNodes 0 <$> outline)
  | None => []
  end.
Proof.
  unfold DocumentUtils.extractToc.
  destruct (DocumentUtils.getOutline pdfDoc) as [outline|]; [|done].
  rewrite processOutline_concat.
  induction outline as [|item rest IH]; [done|].
  simpl. rewrite fmap_app. apply sublist_app; [apply processItem_sublist|done].
Qed.

(** X13 - the outcome of an upload.  The upload ends not loading.  Either
    the file was parsed, then the book is loaded into the session and no
    error is shown; or it was not, then the session is as it was and an
    error text that is not empty is shown - for a file that is neither a
    PDF by type nor an EPUB by type or name, the text about unsupported
    files, whatever libraries are there. *)
Theorem upload_outcome
    (window : DocumentUtils.Window) (file : DocumentUtils.File) (now : Z)
    (st : App.State * FileUpload.State) :
  FileUpload.isLoading (FileUpload.handleFile window file now st).2 = false
  ∧ ((∃ b, DocumentUtils.parseFile window file = DocumentUtils.Ok b
           ∧ FileUpload.handleFile window file now st
             = (App.handleBookLoaded b now st.1, FileUpload.mkState false None))
     ∨ (∃ text, text ≠ EmptyString
           ∧ FileUpload.handleFile window file now st
             = (st.1, FileUpload.mkState false (Some text))))
  ∧ (DocumentUtils.file_type file ≠ "application/pdf"%string →
     DocumentUtils.file_type file ≠ "application/epub+zip"%string →
     Js.endsWith (DocumentUtils.file_name file) ".epub" = false →
     FileUpload.error (FileUpload.handleFile window file now st).2
     = Some "Unsupported file type. Please upload PDF or EPUB."%string).
Proof.
  unfold FileUpload.handleFile. split; [|split].
  - by destruct (DocumentUtils.parseFile window file).
  - destruct (DocumentUtils.parseFile window file) as [b|message].
    + left. by exists b.
    + right. destruct message as [|a message]; cbn;
        (eexists; split; [|reflexivity]; discriminate).
  - intros Hpdf Hepub Hname. unfold DocumentUtils.parseFile.
    rewrite bool_decide_eq_false_2 by done.
    rewrite bool_decide_eq_false_2 by done. rewrite Hname. done.
Qed.

Lemma upload_outcome_witness :
  FileUpload.error
    (FileUpload.handleFile (sampleWindow emptyPdf ∅)
       (DocumentUtils.mkFile "notes.txt" "text/plain" "hello") 5
       (App.initialState ∅, FileUpload.mkState false None)).2
  = Some "Unsupported file type. Please upload PDF or EPUB."%string.
Proof.
  apply upload_outcome; [discriminate|discriminate|reflexivity].
Defined.

(** ** The session: saved progress, the chat log and the requests *)

Section SessionProgress.
Import App.
Context (apiKey : option string).

Lemma persistProgress_saved st b :
  book (persistProgress st) = Some b →
  localStorage (persistProgress st) !! progressKey b
  = Some (currentPage (persistProgress st)).
Proof.
  unfold persistProgress. destruct (book st) as [open|] eqn:Hopen; [|congruence].
  simpl. intros [= ->]. apply lookup_insert_eq.
Qed.

Lemma step_saved st ev b :
  (∀ b, book st = Some b → localStorage st !! progressKey b = Some (currentPage st)) →
  book (step apiKey st ev) = Some b →
  localStorage (step apiKey st ev) !! progressKey b
  = Some (currentPage (step apiKey st ev)).
Proof.
  intros Hsaved. destruct ev as [loaded now| |page|input now|i now|open|k chunk|k e];
    cbn [step].
  - apply persistProgress_saved.
  - discriminate.
  - apply persistProgress_saved.
  - unfold handleSubmit, handleSendMessage.
    destruct (_ && _); [|apply Hsaved].
    destruct (book st) as [open|] eqn:Hopen; [|by rewrite Hopen].
    destruct (_ ≫= _); simpl; apply Hsaved.
  - unfold clickSuggestion, handleSendMessage.
    destruct (book st) as [open|] eqn:Hopen; [|by rewrite Hopen].
    destruct (messages st); [|rewrite Hopen; apply Hsaved].
    destruct (suggestions !! i); [|rewrite Hopen; apply Hsaved].
    destruct (_ ≫= _); simpl; apply Hsaved.
  - apply Hsaved.
  - unfold receiveChunk. destruct (pending st !! k); [|apply Hsaved].
    destruct (GeminiService.onStreamChunk _ _ _). apply Hsaved.
  - unfold finishCall. destruct (pending st !! k); apply Hsaved.
Qed.

Lemma reachable_saved st b :
  reachable apiKey st → book st = Some b →
  localStorage st !! progressKey b = Some (currentPage st).
Proof.
  intros Hreach. revert b. induction Hreach as [storage|st ev _ IH]; [done|].
  intros b. by apply step_saved.
Qed.

End SessionProgress.

(** X14 - the page is saved as one reads.  In every state the session
    can reach with a book open, the stored progress of that book's file
    name is the page shown; so leaving the book and opening a file of the
    same name again shows that page. *)
Theorem progress_is_always_saved
    (apiKey : option string) (st : App.State) (b : Book) :
  App.reachable apiKey st → App.book st = Some b →
  App.localStorage st !! App.progressKey b = Some (App.currentPage st)
  ∧ ∀ again now, book_fileName again = book_fileName b →
      App.currentPage (App.handleBookLoaded again now (App.handleBackToHome st))
      = App.currentPage st.
Proof.
  intros Hreach Hbook.
  pose proof (reachable_saved apiKey st b Hreach Hbook) as Hsaved.
  split; [done|]. intros again now Hname.
  unfold App.handleBookLoaded, App.persistProgress. simpl.
  assert (App.progressKey again = App.progressKey b) as ->
    by (unfold App.progressKey; by rewrite Hname).
  by rewrite Hsaved.
Qed.

Lemma progress_is_always_saved_witness :
  App.localStorage
    (App.run (Some "key"%string) (App.initialState ∅)
       [App.BookLoaded demoBook 900; App.PageChange 1; App.OpenChat true])
    !! "progress_Moby.pdf"%string
  = Some 1.
Proof.
  apply (proj1 (progress_is_always_saved (Some "key"%string)
                  (App.run (Some "key"%string) (App.initialState ∅)
                     [App.BookLoaded demoBook 900; App.PageChange 1; App.OpenChat true])
                  demoBook (reachable_run _ _ _ (App.reachable_init _ ∅)) eq_refl)).
Defined.

Lemma toString_truthy (z : Z) : Js.truthy (Some (JsNumber.toString z)) = true.
Proof.
  destruct z as [|p|p]; [done| |done].
  unfold JsNumber.toString.
  change (pretty (Zpos p)) with (pretty_N_go (Npos p) EmptyString).
  destruct (pretty_N_go_head (Npos p) EmptyString) as (d & rest & _ & ->); [lia|done].
Qed.

Lemma progressKey_inj (b1 b2 : Book) :
  App.progressKey b1 = App.progressKey b2 → book_fileName b1 = book_fileName b2.
Proof. unfold App.progressKey. cbn. by intros [=]. Qed.

(** X15 - the saved page as text.  The page is stored as the decimal
    text of the number and read back with [parseInt]: what is restored for
    a book is the page that was saved for it last, and saving for one file
    name leaves what is restored for any other file name as it was. *)
Theorem saved_page_round_trip
    (b : Book) (page : Z) (storage : gmap string string) :
  safeInteger page →
  Progress.restore b (Progress.persist b page storage) = Some page
  ∧ ∀ other, book_fileName other ≠ book_fileName b →
      Progress.restore other (Progress.persist b page storage)
      = Progress.restore other storage.
Proof.
  intros _. unfold Progress.restore, Progress.persist. split.
  - by rewrite lookup_insert_eq, toString_truthy, parseInt_toString.
  - intros other Hother. rewrite lookup_insert_ne; [done|].
    intros Heq. by apply Hother, eq_sym, progressKey_inj.
Qed.

Lemma saved_page_round_trip_witness :
  Progress.restore demoBook (Progress.persist demoBook 41 ∅) = Some 41.
Proof.
  apply (saved_page_round_trip demoBook 41 ∅). unfold safeInteger. lia.
Defined.

Section ChatLog.
Import App.
Context (apiKey : option string).

(** What a turn becomes under the two maps over the log and under a
    question: it keeps its place and its header. *)
Lemma onChunk_turn aid text msgs i m :
  msgs !! i = Some m →
  ∃ m', onChunk aid text msgs !! i = Some m'
        ∧ turnHeader m' = turnHeader m
        ∧ msg_isStreaming m' = msg_isStreaming m
        ∧ (msg_content m' ≠ msg_content m → msg_id m = aid).
Proof.
  intros Hm. unfold onChunk. rewrite list_lookup_fmap, Hm. simpl.
  destruct (decide (msg_id m = aid)); eexists; (split; [done|]); by repeat split.
Qed.

Lemma finishStreaming_turn aid msgs i m :
  msgs !! i = Some m →
  ∃ m', finishStreaming aid msgs !! i = Some m'
        ∧ turnHeader m' = turnHeader m
        ∧ msg_content m' = msg_content m
        ∧ (msg_isStreaming m' ≠ msg_isStreaming m →
           msg_id m = aid ∧ msg_isStreaming m' = Some false).
Proof.
  intros Hm. unfold finishStreaming. rewrite list_lookup_fmap, Hm. simpl.
  destruct (decide (msg_id m = aid)); eexists; (split; [done|]); by repeat split.
Qed.

Lemma handleSendMessage_turn content now st i m :
  messages st !! i = Some m →
  messages (handleSendMessage apiKey content now st) !! i = Some m.
Proof.
  intros Hm. pose proof (lookup_lt_Some _ _ _ Hm) as Hi.
  unfold handleSendMessage. destruct (book st); [|done].
  destruct (_ ≫= _); simpl.
  - rewrite <- app_assoc. by rewrite lookup_app_l.
  - rewrite <- !app_assoc. by rewrite lookup_app_l.
Qed.

End ChatLog.

(** X16 - the chat log is kept.  While a book stays open, no event
    removes or moves a turn or changes its id, its role or its time.  The
    text of a turn changes only when a chunk arrives for the awaited call
    whose placeholder has the turn's id, and its streaming flag changes
    only when such a call ends, to false. *)
Theorem chat_turns_are_kept
    (apiKey : option string) (st : App.State) (ev : App.Event) (i : nat) (m : Message) :
  keepsChat ev = true →
  App.messages st !! i = Some m →
  ∃ m', App.messages (App.step apiKey st ev) !! i = Some m'
        ∧ turnHeader m' = turnHeader m
        ∧ (msg_content m' ≠ msg_content m →
           ∃ k chunk p, ev = App.Chunk k chunk ∧ App.pending st !! k = Some p
                        ∧ msg_id m = App.assistantMsgId p)
        ∧ (msg_isStreaming m' ≠ msg_isStreaming m →
           ∃ k e p, ev = App.CallEnds k e ∧ App.pending st !! k = Some p
                    ∧ msg_id m = App.assistantMsgId p
                    ∧ msg_isStreaming m' = Some false).
Proof.
  intros Hev Hm.
  assert (Hsame : ∀ st', App.messages st' !! i = Some m →
            ∃ m', App.messages st' !! i = Some m'
                  ∧ turnHeader m' = turnHeader m
                  ∧ (msg_content m' ≠ msg_content m →
                     ∃ k chunk p, ev = App.Chunk k chunk ∧ App.pending st !! k = Some p
                                  ∧ msg_id m = App.assistantMsgId p)
                  ∧ (msg_isStreaming m' ≠ msg_isStreaming m →
                     ∃ k e p, ev = App.CallEnds k e ∧ App.pending st !! k = Some p
                              ∧ msg_id m = App.assistantMsgId p
                              ∧ msg_isStreaming m' = Some false)).
  { intros st' Hst'. exists m. by repeat split. }
  destruct ev as [loaded now| |page|input now|j now|open|k chunk|k e];
    try discriminate Hev; cbn [App.step].
  - apply Hsame. unfold App.setCurrentPage, App.persistProgress. simpl.
    by destruct (App.book st).
  - apply Hsame. unfold App.handleSubmit.
    destruct (_ && _); [by apply handleSendMessage_turn|done].
  - apply Hsame. unfold App.clickSuggestion.
    destruct (App.book st); [|done].
    destruct (App.messages st) eqn:Hmsgs; [by rewrite lookup_nil in Hm|].
    by rewrite Hmsgs.
  - by apply Hsame.
  - unfold App.receiveChunk. destruct (App.pending st !! k) as [p|] eqn:Hp; [|by apply Hsame].
    unfold onStreamChunk. destruct (Js.truthy chunk); [|by apply Hsame]. simpl.
    destruct (onChunk_turn (App.assistantMsgId p)
                (App.fullText p +:+ default EmptyString chunk) _ i m Hm)
      as (m' & Hm' & Hhead & Hflag & Htext).
    exists m'. split; [done|]. split; [done|]. split.
    + intros Hchanged. exists k, chunk, p. by repeat split; [|apply Htext].
    + by intros [].
  - unfold App.finishCall. destruct (App.pending st !! k) as [p|] eqn:Hp; [|by apply Hsame].
    simpl.
    destruct (finishStreaming_turn (App.assistantMsgId p) _ i m Hm)
      as (m' & Hm' & Hhead & Htext & Hflag).
    exists m'. split; [done|]. split; [done|]. split.
    + by intros [].
    + intros Hchanged. destruct (Hflag Hchanged) as [Hid Hfalse].
      by exists k, e, p.
Qed.

Lemma chat_turns_are_kept_witness :
  ∃ m', App.messages (App.step (Some "key"%string) (askedState (Some "key"%string))
                        (App.Chunk 0 (Some "Ahab is"%string))) !! 1%nat = Some m'
        ∧ turnHeader m' = ("1000"%string, user, 1001).
Proof.
  destruct (chat_turns_are_kept (Some "key"%string) (askedState (Some "key"%string))
              (App.Chunk 0 (Some "Ahab is"%string)) 1
              (mkMessage "1000" user "Who is Ahab?" 1001 None))
    as (m' & Hm' & Hhead & _).
  - reflexivity.
  - reflexivity.
  - exists m'. by split.
Defined.

(** X17 - where requests come from.  In a reachable state an event
    either leaves the list of requests sent as it is, or it is a submit of
    a non-blank text while a book is open and no call is awaited; then
    exactly one request is added, built from the log with the question
    added and from the pages up to the page shown at that moment.  No
    event changes or removes a request once it is sent. *)
Theorem requests_come_from_submits
    (apiKey : option string) (st : App.State) (ev : App.Event) :
  App.reachable apiKey st →
  App.sent (App.step apiKey st ev) = App.sent st
  ∨ ∃ b inputValue now req,
      ev = App.Submit inputValue now
      ∧ App.book st = Some b
      ∧ App.isAiLoading st = false ∧ App.pending st = []
      ∧ Js.truthy (Some (Js.trim inputValue)) = true
      ∧ buildRequest
          (App.messages st
           ++ [mkMessage (pretty (now 0%nat)) user inputValue (now 1%nat) None])
          (book_content b) (App.currentPage st) = Some req
      ∧ config_systemInstruction req
        = systemInstruction (book_content b) (App.currentPage st)
      ∧ App.sent (App.step apiKey st ev) = App.sent st ++ [req].
Proof.
  intros (Hone & Hload & Hmsgs)%reachable_invariant.
  destruct ev as [loaded now| |page|input now|j now|open|k chunk|k e]; cbn [App.step].
  - left. done.
  - left. done.
  - left. unfold App.setCurrentPage, App.persistProgress. simpl.
    by destruct (App.book st).
  - unfold App.handleSubmit.
    destruct (Js.truthy (Some (Js.trim input))) eqn:Hinput; [|by left].
    destruct (App.isAiLoading st) eqn:Hidle; [by left|]. cbn [negb andb].
    unfold App.handleSendMessage.
    destruct (App.book st) as [b|] eqn:Hbook; [|by left].
    destruct (getClient apiKey) as [key|]; [|by left]. cbn [mbind option_bind].
    destruct (buildRequest _ _ _) as [req|] eqn:Hreq; [|by left].
    right. exists b, input, now, req. repeat split; try done.
    + destruct (App.pending st) as [|p rest] eqn:Hp; [done|].
      by assert (false = true) by (by apply Hload).
    + unfold buildRequest in Hreq.
      destruct (last _) as [m|]; [|done]. by injection Hreq as <-.
  - left. unfold App.clickSuggestion.
    destruct (App.book st) as [b|] eqn:Hb; [|done].
    destruct (App.messages st) eqn:Hm; [|done].
    exfalso. by apply Hmsgs.
  - by left.
  - left. unfold App.receiveChunk. destruct (App.pending st !! k); [|done].
    by destruct (onStreamChunk _ _ _).
  - left. unfold App.finishCall. by destruct (App.pending st !! k).
Qed.

Lemma requests_come_from_submits_witness :
  App.sent (App.step (Some "key"%string) (askedState (Some "key"%string))
              (App.PageChange 1))
  = App.sent (askedState (Some "key"%string))
  ∨ ∃ b inputValue now req,
      App.PageChange 1 = App.Submit inputValue now
      ∧ App.book (askedState (Some "key"%string)) = Some b
      ∧ App.isAiLoading (askedState (Some "key"%string)) = false
      ∧ App.pending (askedState (Some "key"%string)) = []
      ∧ Js.truthy (Some (Js.trim inputValue)) = true
      ∧ buildRequest
          (App.messages (askedState (Some "key"%string))
           ++ [mkMessage (pretty (now 0%nat)) user inputValue (now 1%nat) None])
          (book_content b) (App.currentPage (askedState (Some "key"%string))) = Some req
      ∧ config_systemInstruction req
        = systemInstruction (book_content b)
            (App.currentPage (askedState (Some "key"%string)))
      ∧ App.sent (App.step (Some "key"%string) (askedState (Some "key"%string))
                    (App.PageChange 1))
        = App.sent (askedState (Some "key"%string)) ++ [req].
Proof.
  apply (requests_come_from_submits (Some "key"%string)
           (askedState (Some "key"%string)) (App.PageChange 1)).
  apply reachable_run. constructor.
Defined.

(** ** Paths inside an EPUB *)

Section PathFacts.
Import EpubPaths.

Lemma split_nonempty sep s : split sep s ≠ [].
Proof.
  destruct s as [|c s]; simpl; [done|].
  destruct (Ascii.eqb c sep); [done|]. by destruct (split sep s).
Qed.

(** Joining what [split] gave with the separator gives the text back. *)
Lemma join_split (sep : ascii) s :
  Js.join (String sep EmptyString) (split sep s) = s.
Proof.
  induction s as [|c s IH]; [done|]. cbn [split].
  destruct (Ascii.eqb_spec c sep) as [->|Hc].
  - pose proof (split_nonempty sep s) as Hne.
    destruct (split sep s) as [|seg rest] eqn:Hsplit; [done|].
    change (Js.join (String sep EmptyString) (EmptyString :: seg :: rest))
      with (String sep (Js.join (String sep EmptyString) (seg :: rest))).
    by rewrite IH.
  - destruct (split sep s) as [|seg rest] eqn:Hsplit.
    + by destruct (split_nonempty sep s).
    + rewrite <- IH. by destruct rest.
Qed.

Lemma resolveStep_plain stack part :
  Forall plainPart stack → Forall plainPart (resolveStep stack part).
Proof.
  intros Hstack. unfold resolveStep.
  destruct (decide (part = ".")) as [|Hdot]; [done|].
  destruct (decide (part = "..")) as [|Hup].
  - rewrite removelast_firstn_len. by apply Forall_take.
  - apply Forall_app. split; [done|]. by apply Forall_singleton.
Qed.

Lemma foldl_resolveStep_plain parts :
  ∀ stack, Forall plainPart stack → Forall plainPart (foldl resolveStep stack parts).
Proof.
  induction parts as [|part parts IH]; intros stack Hstack; [done|].
  simpl. by apply IH, resolveStep_plain.
Qed.

Lemma foldl_resolveStep_push parts :
  ∀ stack, Forall plainPart parts → foldl resolveStep stack parts = stack ++ parts.
Proof.
  induction parts as [|part parts IH]; intros stack Hparts.
  - by rewrite app_nil_r.
  - apply Forall_cons in Hparts as [[Hdot Hup] Hparts]. simpl.
    unfold resolveStep at 2. rewrite !decide_False by done.
    rewrite IH by done. by rewrite <- app_assoc.
Qed.

End PathFacts.

(** X18 - resolving an image reference.  When the folder of the member
    has no [.] or [..] among its segments, the resolved path has none
    either, whatever the reference is.  A reference without such segments
    is put after the folder as it is; for a member at the top of the
    archive it is the resolved path itself. *)
Theorem resolve_path_is_normalised (base relative : string) :
  Forall plainPart (removelast (EpubPaths.split "/" base)) →
  Forall plainPart (EpubPaths.resolveStack base relative)
  ∧ (Forall plainPart (EpubPaths.split "/" relative) →
     EpubPaths.resolveStack base relative
     = removelast (EpubPaths.split "/" base) ++ EpubPaths.split "/" relative)
  ∧ (Forall plainPart (EpubPaths.split "/" relative) →
     removelast (EpubPaths.split "/" base) = [] →
     EpubPaths.resolvePath base relative = relative).
Proof.
  intros Hbase. unfold EpubPaths.resolvePath, EpubPaths.resolveStack.
  split; [by apply foldl_resolveStep_plain|]. split.
  - apply foldl_resolveStep_push.
  - intros Hrel Htop. rewrite foldl_resolveStep_push, Htop by done.
    apply (join_split "/").
Qed.

Lemma resolve_path_is_normalised_witness :
  Forall plainPart (EpubPaths.resolveStack "OEBPS/text/ch1.xhtml" "../images/./a.png").
Proof.
  apply (resolve_path_is_normalised "OEBPS/text/ch1.xhtml" "../images/./a.png").
  vm_compute. repeat constructor; discriminate.
Defined.

Example resolvePath_walks_up :
  EpubPaths.resolvePath "OEBPS/text/ch1.xhtml" "../images/./a.png" = "OEBPS/images/a.png"%string
  ∧ EpubPaths.resolvePath "ch1.xhtml" "../../cover.png" = "cover.png"%string.
Proof. split; reflexivity. Qed.

(** ** The text of a page *)

Section TextFacts.
Import Js.
Implicit Types (s acc : string) (c : ascii).

Lemma collapseSpaces_starts s : startsClean (collapseSpaces true s).
Proof.
  induction s as [|c s IH]; [done|]. simpl.
  by destruct (isWhiteSpace c) eqn:Hc.
Qed.

Lemma collapseSpaces_single s : ∀ inRun, singleSpaced (collapseSpaces inRun s).
Proof.
  induction s as [|c s IH]; intros inRun; [done|]. simpl.
  destruct (isWhiteSpace c) eqn:Hc.
  - destruct inRun; [apply IH|]. simpl. split; [|apply IH].
    intros _. split; [done|apply collapseSpaces_starts].
  - simpl. split; [|apply IH]. intros Hspace. congruence.
Qed.

Lemma collapseSpaces_fixpoint s :
  singleSpaced s →
  collapseSpaces false s = s ∧ (startsClean s → collapseSpaces true s = s).
Proof.
  induction s as [|c s IH]; [done|]. intros [Hc Hs]. simpl.
  destruct (IH Hs) as [IHfalse IHtrue].
  destruct (isWhiteSpace c) eqn:Hspace.
  - destruct (Hc eq_refl) as [-> Hstart]. split; [by rewrite IHtrue|].
    simpl. discriminate.
  - by rewrite IHfalse.
Qed.

Lemma trimStart_starts s : startsClean (trimStart s).
Proof.
  induction s as [|c s IH]; [done|]. simpl.
  by destruct (isWhiteSpace c) eqn:Hc.
Qed.

Lemma trimStart_fixpoint s : startsClean s → trimStart s = s.
Proof. destruct s as [|c s]; [done|]. simpl. by intros ->. Qed.

Lemma trimStart_single s : singleSpaced s → singleSpaced (trimStart s).
Proof.
  induction s as [|c s IH]; [done|]. intros Hs. simpl.
  destruct (isWhiteSpace c); [apply IH, Hs|exact Hs].
Qed.

Lemma endsClean_tail c s : endsClean (String c s) → endsClean s.
Proof. by destruct s. Qed.

Lemma trimStart_ends s : endsClean s → endsClean (trimStart s).
Proof.
  induction s as [|c s IH]; [done|]. intros Hs. simpl.
  destruct (isWhiteSpace c); [|done]. by apply IH, (endsClean_tail c).
Qed.

Lemma rev_app_single s :
  ∀ acc, singleSpaced s → singleSpaced acc → startsClean s ∨ startsClean acc →
         singleSpaced (String.rev_app s acc).
Proof.
  induction s as [|c s IH]; intros acc Hs Hacc Hjoin; [done|].
  destruct Hs as [Hc Hs]. simpl. apply IH; [done| |].
  - simpl. split; [|done]. intros Hspace.
    destruct (Hc Hspace) as [-> _]. split; [done|].
    destruct Hjoin as [Hclean|Hclean]; [|done]. simpl in Hclean. congruence.
  - simpl. destruct (isWhiteSpace c) eqn:Hspace; [|by right].
    left. by apply Hc.
Qed.

Lemma rev_app_ends s :
  ∀ acc, acc ≠ EmptyString → endsClean acc → endsClean (String.rev_app s acc).
Proof.
  induction s as [|c s IH]; intros acc Hne Hacc; [done|].
  simpl. apply IH; [done|]. by destruct acc.
Qed.

Lemma rev_ends s : startsClean s → endsClean (String.rev s).
Proof.
  destruct s as [|c s]; [done|]. intros Hc.
  unfold String.rev. simpl. by apply rev_app_ends.
Qed.

Lemma rev_app_starts s :
  ∀ acc, s ≠ EmptyString → endsClean s → startsClean (String.rev_app s acc).
Proof.
  induction s as [|c s IH]; intros acc Hne Hs; [done|].
  destruct s as [|d s]; [done|]. apply IH; done.
Qed.

Lemma rev_starts s : endsClean s → startsClean (String.rev s).
Proof.
  destruct s as [|c s]; [done|]. intros Hs. by apply rev_app_starts.
Qed.

Lemma rev_app_rev_app s :
  ∀ acc rest, String.rev_app (String.rev_app s acc) rest
              = String.rev_app acc (s +:+ rest).
Proof.
  induction s as [|c s IH]; intros acc rest; [done|]. simpl. by rewrite IH.
Qed.

Lemma rev_involutive s : String.rev (String.rev s) = s.
Proof. unfold String.rev. rewrite rev_app_rev_app. simpl. apply string_app_nil_r. Qed.

Lemma rev_single s : singleSpaced s → singleSpaced (String.rev s).
Proof. intros Hs. apply rev_app_single; [done|done|by right]. Qed.

(** What [replace(/\s+/g, ' ').trim()] gives is tidy, and a tidy text is
    left as it is. *)
Lemma normalizeText_tidy s : tidyText (normalizeText s).
Proof.
  unfold normalizeText, trim. repeat split.
  - apply rev_single, trimStart_single, rev_single, trimStart_single,
      collapseSpaces_single.
  - apply rev_starts, trimStart_ends, rev_ends, trimStart_starts.
  - apply rev_ends, trimStart_starts.
Qed.

Lemma tidyText_fixpoint s : tidyText s → normalizeText s = s.
Proof.
  intros (Hsingle & Hstart & Hend). unfold normalizeText, trim.
  rewrite (proj1 (collapseSpaces_fixpoint s Hsingle)).
  rewrite (trimStart_fixpoint s Hstart).
  rewrite (trimStart_fixpoint (String.rev s)) by by apply rev_starts.
  apply rev_involutive.
Qed.

End TextFacts.

(** X19 - the pages of a book are normalised.  Whatever file is parsed,
    in every page of the book white space occurs only as single spaces
    between other characters: none at either end, no run of it, no tab or
    line break; normalising a page again changes nothing. *)
Theorem book_pages_are_normalised
    (window : DocumentUtils.Window) (file : DocumentUtils.File) (b : Book) :
  DocumentUtils.parseFile window file = DocumentUtils.Ok b →
  Forall (λ text, tidyText text ∧ Js.normalizeText text = text) (book_content b).
Proof.
  assert (Hnormal : ∀ s, tidyText (Js.normalizeText s)
                         ∧ Js.normalizeText (Js.normalizeText s) = Js.normalizeText s).
  { intros s. split; [apply normalizeText_tidy|].
    apply tidyText_fixpoint, normalizeText_tidy. }
  unfold DocumentUtils.parseFile.
  destruct (bool_decide _); [|destruct (_ || _); [|done]].
  - unfold DocumentUtils.parsePdf.
    destruct (DocumentUtils.pdfjsLib window) as [getDocument|]; [|done].
    destruct (getDocument _) as [pdfDoc|]; [|done].
    destruct (mapM _ _) as [texts|]; [|done].
    intros [= <-]. simpl. apply Forall_fmap, Forall_true. intros items. apply Hnormal.
  - unfold DocumentUtils.parseEpub.
    destruct (DocumentUtils.JSZip window) as [loadAsync|]; [|done].
    destruct (loadAsync _) as [files|]; [|done].
    destruct (DocumentUtils.epubLoop _ _) as [acc|] eqn:Hloop; [|done].
    intros [= <-]. simpl.
    destruct (epubLoop_shape_from files (DocumentUtils.htmlNames files) []
                (DocumentUtils.mkEpubAcc [] [] []) acc)
      as (Htext & _).
    { intros n Hn. by apply htmlNames_elem in Hn as [_ ?]. }
    { exact Hloop. }
    { by repeat split. }
    case_bool_decide.
    + rewrite Htext. apply Forall_fmap, Forall_true. intros name. apply Hnormal.
    + apply Forall_singleton.
      change "No text content found."%string
        with (Js.normalizeText "No text content found."). apply Hnormal.
Qed.

Lemma book_pages_are_normalised_witness :
  Forall (λ text, tidyText text ∧ Js.normalizeText text = text)
    (book_content parsedEpubBook).
Proof.
  apply (book_pages_are_normalised (sampleWindow emptyPdf sampleArchive) epubFile).
  by vm_compute.
Defined.
